(** * Knuth-Morris-Pratt substring search (string/search/kmp/c/main.c)

    A shallow embedding of the C function [kmp] and a verification of the
    properties its specification states.  The function builds, in a
    variable-length array on its stack, the transition table of the
    automaton that recognises the pattern, and then drives that automaton
    over the text.

    What the embedding keeps of the C program:
    - [size_t] values are integers with the wrap-around of a 64-bit word
      written out wherever the source computes with them;
    - a C string is the list of the bytes before its terminator;
    - [(size_t)s[i]] goes through the value of a [char], whose signedness
      the C standard leaves to the implementation: it is a parameter;
    - the table is an array of [RADIX] rows and [patternlen] columns whose
      cells hold whatever the stack held until they are stored to: the
      stored cells are a finite map, the rest is a parameter;
    - an access outside the array is undefined behaviour, an outcome of its
      own.

    The functions around [kmp] ([readline], [test], [usage], [main]) are
    embedded as runs over the state of the input streams and of the
    output, with the functions of the C library they call ([fgets],
    [getchar], [strlen], [strcmp], [printf], [exit], [assert]) given the
    meaning the C standard gives them. *)

From Stdlib Require Import ZArith Lia.
From stdpp Require Import gmap list strings.

Local Open Scope Z_scope.

(** ** Machine integers and C strings *)

(** Reduction of an integer to the range of [size_t]. *)
Definition wrap (z : Z) : Z := z mod 2 ^ 64.

(** [strlen]: the number of bytes before the terminator. *)
Definition strlen (s : list Z) : Z := Z.of_nat (length s).

(** [s[i]] for [0 <= i <= strlen s]; the byte at [strlen s] is the
    terminating NUL. *)
Definition char_at (s : list Z) (i : Z) : Z := nth (Z.to_nat i) s 0.

(** The bytes of a string literal. *)
Fixpoint cstr (s : string) : list Z :=
  match s with
  | EmptyString => []
  | String a s' => Z.of_N (Ascii.N_of_ascii a) :: cstr s'
  end.

(** ** Outcomes *)

Inductive fault : Type :=
  | StoreOutside (c j : Z)
  | LoadOutside (c j : Z).

Inductive res (A : Type) : Type :=
  | Ret (a : A)
  | UB (f : fault).

Arguments Ret {A} a.
Arguments UB {A} f.

Definition bind {A B} (m : res A) (k : A -> res B) : res B :=
  match m with
  | Ret a => k a
  | UB f => UB f
  end.

Notation "x <- m ;; k" := (bind m (fun x => k))
  (at level 20, m at level 99, k at level 200, only parsing).

(** An outcome the C abstract machine gives a meaning to: the call comes
    back to its caller with a value. *)
Definition defined {A} (r : res A) : Prop := exists a, r = Ret a.

(** [for (size_t i = lo; i < hi; i++) body], the loop state threaded
    through the iterations. *)
Fixpoint for_loop {S : Type} (n : nat) (i : Z) (body : Z -> S -> res S) (s : S)
  : res S :=
  match n with
  | O => Ret s
  | Datatypes.S n' => s' <- body i s ;; for_loop n' (i + 1) body s'
  end.

Definition for_range {S : Type} (lo hi : Z) (body : Z -> S -> res S) (s : S)
  : res S :=
  for_loop (Z.to_nat (hi - lo)) lo body s.

(** ** The transition table *)

(** [const size_t RADIX = 256]. *)
Definition RADIX : Z := 256.

(** [size_t dfa[RADIX][patternlen]]: the number of columns and the cells
    stored to so far. *)
Record table : Type := Table { cols : Z; cells : gmap (Z * Z) Z }.

Definition inside (t : table) (c j : Z) : bool :=
  (0 <=? c) && (c <? RADIX) && (0 <=? j) && (j <? cols t).

(** [dfa[c][j] = v]. *)
Definition store (t : table) (c j v : Z) : res table :=
  if inside t c j then Ret (Table (cols t) (<[(c, j) := v]> (cells t)))
  else UB (StoreOutside c j).

Section Machine.

(** Whether plain [char] is a signed type. *)
Variable char_signed : bool.

(** What the stack holds where the array is allocated. *)
Variable junk : Z -> Z -> Z.

(** The value of the [char] whose object representation is byte [b]. *)
Definition char_value (b : Z) : Z :=
  if char_signed && (128 <=? b) then b - 256 else b.

(** [(size_t)ch]. *)
Definition index_of (b : Z) : Z := wrap (char_value b).

(** The content of cell [dfa[c][j]]. *)
Definition peek (t : table) (c j : Z) : Z :=
  default (junk c j) (cells t !! (c, j)).

(** Reading [dfa[c][j]]. *)
Definition load (t : table) (c j : Z) : res Z :=
  if inside t c j then Ret (peek t c j) else UB (LoadOutside c j).

(** Lines 46-49: column 0. *)
Definition init_column0 (pattern : list Z) (dfa : table) : res table :=
  dfa <- for_range 1 RADIX (fun i dfa => store dfa i 0 0) dfa ;;
  store dfa (index_of (char_at pattern 0)) 0 1.

(** Lines 54-56: column [j] becomes a copy of column [state]. *)
Definition copy_column (state j : Z) (dfa : table) : res table :=
  for_range 0 RADIX
    (fun c dfa => v <- load dfa c state ;; store dfa c j v) dfa.

(** Lines 53-62: one iteration of the construction loop. *)
Definition build_step (pattern : list Z) (j : Z) (st : table * Z)
  : res (table * Z) :=
  let '(dfa, state) := st in
  dfa <- copy_column state j dfa ;;
  dfa <- store dfa (index_of (char_at pattern j)) j (wrap (j + 1)) ;;
  state <- load dfa (index_of (char_at pattern j)) state ;;
  Ret (dfa, state).

(** Lines 52-63, from any column on. *)
Definition build_from (pattern : list Z) (lo : Z) (st : table * Z)
  : res (table * Z) :=
  for_range lo (strlen pattern) (build_step pattern) st.

(** Lines 39-63: the table and the restart state the construction ends
    with. *)
Definition build_state (pattern : list Z) : res (table * Z) :=
  let patternlen := strlen pattern in
  let dfa := Table patternlen ∅ in
  let state := 0 in
  dfa <- init_column0 pattern dfa ;;
  build_from pattern 1 (dfa, state).

Definition build (pattern : list Z) : res table :=
  st <- build_state pattern ;; Ret (fst st).

(** Lines 67-74: the scan from position [i] in state [state], [rest]
    being the text from [i] on.  The result is the index of the returned
    pointer in the text, or [None] for [NULL]. *)
Fixpoint run (dfa : table) (patternlen : Z) (rest : list Z) (i state : Z)
  : res (option Z) :=
  match rest with
  | [] => Ret None
  | ch :: rest' =>
      state' <- load dfa (index_of ch) state ;;
      if patternlen <=? state'
      then Ret (Some (wrap (wrap (i - patternlen) + 1)))
      else run dfa patternlen rest' (i + 1) state'
  end.

(** Lines 65-77. *)
Definition scan (dfa : table) (text : list Z) : res (option Z) :=
  let state := 0 in
  run dfa (cols dfa) text 0 state.

(** Lines 37-78. *)
Definition kmp (text pattern : list Z) : res (option Z) :=
  dfa <- build pattern ;; scan dfa text.

(** The state of the automaton after the symbols of [w], from [state]. *)
Fixpoint dfa_state (dfa : table) (w : list Z) (state : Z) : res Z :=
  match w with
  | [] => Ret state
  | ch :: w' =>
      state' <- load dfa (index_of ch) state ;; dfa_state dfa w' state'
  end.

(** A byte that can occur in a C string and whose [char] indexes a row of
    the table. *)
Definition symbol (b : Z) : bool :=
  (0 <? b) && (b <? 256) && (index_of b <? RADIX).

(** A C string over such bytes, of a length [size_t] can hold. *)
Definition symbols (s : list Z) : bool :=
  forallb symbol s && (strlen s <? 2 ^ 64).

End Machine.

(** ** What the search is to find *)

(** The pattern occurs in the text at offset [o]. *)
Definition occurs_at (p t : list Z) (o : Z) : Prop :=
  exists pre post, t = pre ++ p ++ post /\ strlen pre = o.

(** [r] is the offset of the leftmost occurrence, or [None] when there is
    no occurrence. *)
Definition leftmost (p t : list Z) (r : option Z) : Prop :=
  match r with
  | Some o => occurs_at p t o /\ forall o', occurs_at p t o' -> o <= o'
  | None => forall o, ~ occurs_at p t o
  end.

(** ** The automaton of a pattern

    The definitions of this section are not taken from the source: they say
    what the table is to hold, in the words of the specification.  State
    [k] stands for "the longest prefix of the pattern matched so far has
    length [k]": the last [k] symbols read are the first [k] symbols of the
    pattern, and [k] is the largest such number. *)
Section Automaton.

Variable p : list Z.

(** The largest [k' <= k] such that the first [k'] symbols of the pattern
    end the word [w]. *)
Fixpoint longest (k : nat) (w : list Z) : nat :=
  match k with
  | O => O
  | Datatypes.S k' =>
      if decide (take k p `suffix_of` w) then k else longest k' w
  end.

Definition sigma (w : list Z) : nat := longest (length p) w.

(** The transition of the automaton from state [s] on symbol [c]. *)
Definition delta (s c : Z) : Z :=
  Z.of_nat (sigma (take (Z.to_nat s) p ++ [c])).

(** The state the automaton is in after the pattern's symbols [1 .. j):
    where to restart from after a mismatch in state [j]. *)
Definition restart (j : Z) : Z :=
  Z.of_nat (sigma (drop 1 (take (Z.to_nat j) p))).

End Automaton.

(** The invariant of the construction loop at the start of iteration [j]:
    the columns below [j] hold the automaton's transitions for every symbol
    from 1 on, the restart state is the automaton's, and row 0 is what
    lines 46-48 and the copies make of it. *)
Definition built (junk : Z -> Z -> Z) (p : list Z) (j : Z) (st : table * Z)
  : Prop :=
  cols (fst st) = strlen p /\
  snd st = restart p j /\
  (forall c s, 1 <= c < RADIX -> 0 <= s < j ->
               cells (fst st) !! (c, s) = Some (delta p s c)) /\
  cells (fst st) !! (0, 0) = None /\
  (forall s, 1 <= s < j -> cells (fst st) !! (0, s) = Some (junk 0 0)).

(** The table holds the automaton of pattern [p] in the rows of the
    symbols from 1 on. *)
Definition recognises (p : list Z) (t : table) : Prop :=
  cols t = strlen p /\
  forall c s, 1 <= c < RADIX -> 0 <= s < strlen p ->
              cells t !! (c, s) = Some (delta p s c).

(** Position [i] of the text is the first at which the scan of lines 67-74
    finds itself in an accepting state. *)
Definition first_accept (char_signed : bool) (junk : Z -> Z -> Z)
    (dfa : table) (text : list Z) (i : Z) : Prop :=
  0 <= i /\
  (exists s, dfa_state char_signed junk dfa (take (Z.to_nat (i + 1)) text) 0
             = Ret s /\ cols dfa <= s) /\
  forall k, 0 <= k <= i ->
            exists s, dfa_state char_signed junk dfa (take (Z.to_nat k) text) 0
                      = Ret s /\ s < cols dfa.

(** No prefix of the text shorter than [k] ends with the pattern. *)
Definition quiet (p text : list Z) (k : nat) : Prop :=
  forall n, (n < k)%nat -> (sigma p (take n text) < length p)%nat.


(** ** The program around the search

    [readline], [test], [usage] and [main] read the standard input, print
    and may end the process.  A run takes the state of the streams to an
    outcome: a value and a new state, or the way the run stopped.  What
    [printf] prints is kept as the call itself, format (as the source
    spells it) and arguments; the elapsed time that line 103 prints is the
    difference of two readings of the processor's clock and is left
    opaque.  The loop of lines 25-27 need not end: it takes fuel. *)

(** [EXIT_SUCCESS], [EXIT_FAILURE] and [EOF], with the values the usual C
    libraries give them; [EOF] is negative in every C library. *)
Definition EXIT_SUCCESS : Z := 0.
Definition EXIT_FAILURE : Z := 1.
Definition EOF : Z := -1.

(** Conversion of an integer to [int]. *)
Definition to_int (z : Z) : Z := (z + 2 ^ 31) mod 2 ^ 32 - 2 ^ 31.

(** The streams: the standard input, and any other one. *)
Inductive FILE : Type := Stdin | Other.

Inductive printf_arg : Type :=
  | ArgString (s : list Z)
  | ArgSize (n : Z)
  | ArgDouble.

Inductive event : Type := Printf (format : string) (args : list printf_arg).

(** The bytes still to be read from each stream, and what was printed so
    far. *)
Record world : Type :=
  World { stdin : list Z; other : list Z; stdout : list event }.

Inductive undefined : Type :=
  | InSearch (f : fault)
  | NullPointer
  | Overrun (i : Z)
  | Unterminated.

Inductive stop : Type :=
  | Exited (status : Z)
  | Aborted
  | Undefined (u : undefined)
  | OutOfFuel.

Inductive outcome (A : Type) : Type :=
  | Done (a : A) (w : world)
  | Stop (s : stop) (w : world).

Arguments Done {A} a w.
Arguments Stop {A} s w.

Definition io (A : Type) : Type := world -> outcome A.

Definition ret {A} (a : A) : io A := fun w => Done a w.

Definition halt {A} (s : stop) : io A := fun w => Stop s w.

Definition iobind {A B} (m : io A) (k : A -> io B) : io B :=
  fun w => match m w with
           | Done a w' => k a w'
           | Stop s w' => Stop s w'
           end.

Notation "x <~ m ;; k" := (iobind m (fun x => k))
  (at level 20, m at level 99, k at level 200, only parsing).
Notation "m ;;; k" := (iobind m (fun _ => k))
  (at level 99, k at level 200, right associativity, only parsing).

(** The result of [kmp] in a run. *)
Definition search {A} (r : res A) : io A :=
  match r with
  | Ret a => ret a
  | UB f => halt (Undefined (InSearch f))
  end.

(** [exit(status)]. *)
Definition exit {A} (status : Z) : io A := halt (Exited status).

(** [printf(format, args...)]. *)
Definition printf (format : string) (args : list printf_arg) : io unit :=
  fun w => Done tt (World (stdin w) (other w) (stdout w ++ [Printf format args])).

Definition stream_of (f : FILE) (w : world) : list Z :=
  match f with
  | Stdin => stdin w
  | Other => other w
  end.

Definition set_stream (f : FILE) (s : list Z) (w : world) : world :=
  match f with
  | Stdin => World s (other w) (stdout w)
  | Other => World (stdin w) s (stdout w)
  end.

(** [getchar()]: the next byte of the standard input, or [EOF]. *)
Definition getchar : io Z :=
  fun w => match stdin w with
           | [] => Done EOF w
           | b :: s => Done b (set_stream Stdin s w)
           end.

(** The bytes [fgets] takes from a stream when it may store [n] of them:
    up to the first newline, included, and what is left of the stream. *)
Fixpoint read_line (n : nat) (s : list Z) : list Z * list Z :=
  match n, s with
  | O, _ => ([], s)
  | _, [] => ([], [])
  | Datatypes.S n', b :: s' =>
      if b =? 10 then ([b], s')
      else let '(l, r) := read_line n' s' in (b :: l, r)
  end.

(** [fgets(buffer, n, stream)].  For [n] of 2 or more, at most [n - 1]
    bytes are read and stored with a NUL after them; at the end of the
    stream with no byte read the buffer is left as it is and the result is
    [NULL], here [None].  For [n = 1] nothing is read, the NUL alone is
    stored and the buffer is returned; for [n <= 0] nothing is read or
    stored and the result is [NULL]. *)
Definition fgets (buffer : list Z) (n : Z) (f : FILE)
  : io (option (list Z)) :=
  fun w =>
    if n <=? 0 then Done None w
    else if n =? 1 then
      match buffer with
      | [] => Stop (Undefined (Overrun 0)) w
      | _ :: buffer' => Done (Some (0 :: buffer')) w
      end
    else
      let '(l, r) := read_line (Z.to_nat (n - 1)) (stream_of f w) in
      match l, stream_of f w with
      | [], [] => Done None w
      | _, _ =>
          if (length l + 1 <=? length buffer)%nat
          then Done (Some (l ++ [0] ++ drop (length l + 1) buffer))
                    (set_stream f r w)
          else Stop (Undefined (Overrun (Z.of_nat (length buffer))))
                    (set_stream f r w)
      end.

(** The C string an array holds: the bytes before its first NUL, if it has
    one. *)
Fixpoint until_nul (a : list Z) : option (list Z) :=
  match a with
  | [] => None
  | b :: a' => if b =? 0 then Some [] else cons b <$> until_nul a'
  end.

(** Handing an array to a function that reads it as a C string. *)
Definition c_string (a : list Z) : io (list Z) :=
  match until_nul a with
  | Some s => ret s
  | None => halt (Undefined Unterminated)
  end.

(** [a[i]]. *)
Definition array_load (a : list Z) (i : Z) : io Z :=
  if (0 <=? i) && (i <? Z.of_nat (length a))
  then ret (nth (Z.to_nat i) a 0)
  else halt (Undefined (Overrun i)).

(** [a[i] = v]. *)
Definition array_store (a : list Z) (i v : Z) : io (list Z) :=
  if (0 <=? i) && (i <? Z.of_nat (length a))
  then ret (<[Z.to_nat i := v]> a)
  else halt (Undefined (Overrun i)).

(** A byte of a line: neither the NUL nor the newline. *)
Definition inline (b : Z) : bool :=
  (0 <? b) && (b <? 256) && negb (b =? 10).

(** A byte at which the loop of lines 25-27 ends: the newline and, where
    [char] is signed, the byte 255, which is [EOF] as a [char]. *)
Definition ends_drain (char_signed : bool) (b : Z) : bool :=
  (b =? 10) || (char_signed && (b =? 255)).

(** A byte that the loop of lines 25-27 reads and goes on after. *)
Definition drained (char_signed : bool) (b : Z) : bool :=
  (0 <=? b) && (b <? 256) && negb (ends_drain char_signed b).

(** What [test] prints when it gets as far as line 107. *)
Definition test_prints (verbose : bool) (pattern : list Z) (textlen : Z)
    (found : bool) : list event :=
  (if verbose
   then [Printf "Search: pattern = \'%s\', text length = %zu\n"
                [ArgString pattern; ArgSize textlen]]
   else []) ++
  [Printf "KMP: %2.lf us\n" [ArgDouble]] ++
  (if verbose
   then [Printf "Output: %s\n"
                [ArgString (cstr (if found then "found" else "not found"))]]
   else []).

(** What [usage] prints. *)
Definition usage_prints (argv0 : list Z) : list event :=
  [Printf "%s - Testing program for kmp.\n" [ArgString argv0];
   Printf "Usage: %s [--verbose] <pattern>\n" [ArgString argv0]].

Section Program.

Variable char_signed : bool.

(** What the stack holds where [kmp] allocates its table. *)
Variable junk : Z -> Z -> Z.

(** What the stack holds where [test] allocates its line buffer. *)
Variable stack : Z -> Z.

(** Conversion of the [int] that [getchar] returns to [char]. *)
Definition to_char (c : Z) : Z := char_value char_signed (c mod 256).

(** Lines 25-27: bytes of the standard input are read until one of them,
    as a [char], is a newline or equals [EOF]. *)
Fixpoint drain (fuel : nat) : io unit :=
  match fuel with
  | O => halt OutOfFuel
  | Datatypes.S fuel' =>
      c <~ getchar ;;
      let ch := to_char c in
      if negb (ch =? 10) && negb (ch =? EOF) then drain fuel' else ret tt
  end.

(** Lines 12-34.  The result is the returned [int] and the new content of
    the buffer. *)
Definition readline (fuel : nat) (stream : FILE) (buffer : list Z)
    (maxlen : Z) : io (Z * list Z) :=
  let length := 0 in
  r <~ fgets buffer (to_int maxlen) stream ;;
  match r with
  | None => ret (to_int length, buffer)
  | Some buffer =>
      s <~ c_string buffer ;;
      let length := strlen s in
      last <~ array_load buffer (wrap (length - 1)) ;;
      if negb (char_value char_signed last =? 10)
      then drain fuel ;;; ret (to_int length, buffer)
      else
        buffer <~ array_store buffer (wrap (length - 1)) 0 ;;
        ret (to_int (wrap (length - 1)), buffer)
  end.

(** Lines 110-112, from index [i] on for [n] iterations: [result] is the
    offset in [text] of the pointer [kmp] returned, [None] for [NULL].
    [assert] is the one of a build without [NDEBUG]: it ends the process
    when the comparison fails. *)
Fixpoint sanity_check (n : nat) (i : Z) (text : list Z) (result : option Z)
    (pattern : list Z) : io unit :=
  match n with
  | O => ret tt
  | Datatypes.S n' =>
      match result with
      | None => halt (Undefined NullPointer)
      | Some o =>
          b <~ array_load text (o + i) ;;
          if char_value char_signed b
             =? char_value char_signed (char_at pattern i)
          then sanity_check n' (i + 1) text result pattern
          else halt Aborted
      end
  end.

(** Lines 81-113. *)
Definition test (fuel : nat) (pattern : list Z) (verbose : bool) : io unit :=
  let maxlen := 4096 in
  let text := stack <$> seqZ 0 maxlen in
  r <~ readline fuel Stdin text maxlen ;;
  let text := snd r in
  (if verbose
   then s <~ c_string text ;;
        printf "Search: pattern = \'%s\', text length = %zu\n"
               [ArgString pattern; ArgSize (strlen s)]
   else ret tt) ;;;
  s <~ c_string text ;;
  result <~ search (kmp char_signed junk s pattern) ;;
  printf "KMP: %2.lf us\n" [ArgDouble] ;;;
  (if verbose
   then printf "Output: %s\n"
               [ArgString (cstr (if result is Some _ then "found"
                                 else "not found"))]
   else ret tt) ;;;
  sanity_check (length pattern) 0 text result pattern.

(** Lines 116-121: never returns. *)
Definition usage {A} (argv : list (list Z)) : io A :=
  match argv with
  | [] => halt (Undefined NullPointer)
  | argv0 :: _ =>
      printf "%s - Testing program for kmp.\n" [ArgString argv0] ;;;
      printf "Usage: %s [--verbose] <pattern>\n" [ArgString argv0] ;;;
      exit EXIT_FAILURE
  end.

(** Lines 124-150; [argc] is the length of [argv]. *)
Definition main (fuel : nat) (argv : list (list Z)) : io Z :=
  let argc := Z.of_nat (length argv) in
  (if (argc <? 2) || (3 <? argc)
   then printf "Error: invalid number of arguments.\n" [] ;;; usage argv
   else ret tt) ;;;
  a <~ (if argc =? 2
        then ret (nth 1 argv [], false)
        else if (argc =? 3) && bool_decide (nth 1 argv [] = cstr "--verbose")
        then ret (nth 2 argv [], true)
        else printf "Error: invalid arguments.\n" [] ;;; usage argv) ;;
  test fuel (fst a) (snd a) ;;;
  ret EXIT_SUCCESS.

End Program.


(** * Properties *)

(** ** The automaton *)
Section Borders.

Variable p : list Z.

Lemma longest_suffix k w : take (longest p k w) p `suffix_of` w.
Proof.
  induction k as [|k IH]; simpl.
  - apply suffix_nil.
  - case_decide; auto.
Qed.

Lemma longest_le k w : (longest p k w <= k)%nat.
Proof. induction k as [|k IH]; simpl; [lia|]. case_decide; lia. Qed.

Lemma longest_max k w k' :
  (k' <= k)%nat -> take k' p `suffix_of` w -> (k' <= longest p k w)%nat.
Proof.
  induction k as [|k IH]; intros Hle Hs; simpl; [lia|].
  case_decide as Hd; [lia|].
  destruct (decide (k' = Datatypes.S k)) as [->|Hne]; [done|].
  apply IH; [lia|done].
Qed.

Lemma sigma_suffix w : take (sigma p w) p `suffix_of` w.
Proof. apply longest_suffix. Qed.

Lemma sigma_le w : (sigma p w <= length p)%nat.
Proof. apply longest_le. Qed.

Lemma sigma_max w k :
  (k <= length p)%nat -> take k p `suffix_of` w -> (k <= sigma p w)%nat.
Proof. apply longest_max. Qed.

Lemma sigma_length w : (sigma p w <= length w)%nat.
Proof.
  pose proof (suffix_length _ _ (sigma_suffix w)) as H.
  pose proof (sigma_le w). rewrite length_take in H. lia.
Qed.

Lemma sigma_eq w k :
  (k <= length p)%nat -> take k p `suffix_of` w ->
  (forall k', (k' <= length p)%nat -> take k' p `suffix_of` w -> (k' <= k)%nat) ->
  sigma p w = k.
Proof.
  intros Hk Hs Hmax. apply Nat.le_antisymm.
  - apply Hmax; [apply sigma_le | apply sigma_suffix].
  - by apply sigma_max.
Qed.

Lemma sigma_mono w1 w2 : w1 `suffix_of` w2 -> (sigma p w1 <= sigma p w2)%nat.
Proof.
  intros Hs. apply sigma_max; [apply sigma_le|].
  etrans; [apply sigma_suffix | done].
Qed.

Lemma sigma_nil : sigma p [] = O.
Proof. pose proof (sigma_length []). simpl in *. lia. Qed.

(** Two prefixes of the pattern that end the same word: the shorter ends
    the longer. *)
Lemma take_suffix_take k1 k2 w :
  (k1 <= k2)%nat -> (k2 <= length p)%nat ->
  take k1 p `suffix_of` w -> take k2 p `suffix_of` w ->
  take k1 p `suffix_of` take k2 p.
Proof.
  intros H12 H2 Hs1 Hs2.
  destruct (suffix_weak_total _ _ _ Hs1 Hs2) as [|Hrev]; [done|].
  apply suffix_length in Hrev. rewrite !length_take in Hrev.
  assert (k1 = k2) as -> by lia. done.
Qed.

(** The state after [w ++ [c]] only depends on the state after [w]. *)
Lemma sigma_snoc w c :
  sigma p (w ++ [c]) = sigma p (take (sigma p w) p ++ [c]).
Proof.
  apply Nat.le_antisymm.
  - pose proof (sigma_suffix (w ++ [c])) as Hs.
    pose proof (sigma_le (w ++ [c])) as Hle.
    destruct (sigma p (w ++ [c])) as [|k] eqn:E; [lia|].
    destruct (lookup_lt_is_Some_2 p k) as [x Hx]; [lia|].
    rewrite (take_S_r _ _ _ Hx) in Hs.
    pose proof (suffix_snoc_inv_1 _ _ _ _ Hs) as ->.
    apply suffix_snoc_inv_2 in Hs.
    apply sigma_max; [lia|].
    rewrite (take_S_r _ _ _ Hx). apply suffix_snoc.
    apply (take_suffix_take _ _ w); auto using sigma_suffix, sigma_le.
    apply sigma_max; [lia | done].
  - apply sigma_mono, suffix_snoc, sigma_suffix.
Qed.

(** Reading the next symbol of the pattern advances by one. *)
Lemma sigma_match j x :
  p !! j = Some x -> sigma p (take j p ++ [x]) = Datatypes.S j.
Proof.
  intros Hx. pose proof (lookup_lt_Some _ _ _ Hx) as Hj.
  apply sigma_eq; [lia | by rewrite (take_S_r _ _ _ Hx) |].
  intros k Hk Hs. apply suffix_length in Hs.
  rewrite length_app, !length_take in Hs. simpl in Hs. lia.
Qed.

Lemma suffix_drop1 (l1 l2 : list Z) :
  l1 `suffix_of` l2 -> (length l1 < length l2)%nat ->
  l1 `suffix_of` drop 1 l2.
Proof.
  intros [k ->] Hlen. rewrite length_app in Hlen.
  destruct k as [|a k]; simpl in *; [lia|].
  rewrite drop_0. by apply suffix_app_r.
Qed.

(** Reading any other symbol is reading it after the pattern's symbols
    [1 .. j). *)
Lemma sigma_mismatch j x c :
  p !! j = Some x -> c <> x ->
  sigma p (take j p ++ [c]) = sigma p (drop 1 (take j p) ++ [c]).
Proof.
  intros Hx Hc. pose proof (lookup_lt_Some _ _ _ Hx) as Hj.
  destruct j as [|j]; [done|].
  apply Nat.le_antisymm.
  - pose proof (sigma_suffix (take (Datatypes.S j) p ++ [c])) as Hs.
    pose proof (sigma_length (take (Datatypes.S j) p ++ [c])) as Hl.
    rewrite length_app, length_take in Hl.
    change (length [c]) with 1%nat in Hl.
    set (k := sigma p (take (Datatypes.S j) p ++ [c])) in *.
    destruct (decide (k = Datatypes.S (Datatypes.S j))) as [E|E].
    + rewrite E in Hs.
      destruct (lookup_lt_is_Some_2 p (Datatypes.S j)) as [y Hy]; [lia|].
      rewrite (take_S_r _ _ _ Hy) in Hs.
      apply suffix_snoc_inv_1 in Hs. congruence.
    + apply sigma_max; [apply sigma_le|].
      replace (drop 1 (take (Datatypes.S j) p) ++ [c])
        with (drop 1 (take (Datatypes.S j) p ++ [c])).
      * apply suffix_drop1; [done|].
        rewrite length_app, !length_take.
        change (length [c]) with 1%nat. lia.
      * destruct p; simpl; [simpl in Hj; lia|]. by rewrite !drop_0.
  - apply sigma_mono, suffix_app, suffix_drop.
Qed.

(** *** The same, on the integers of the program *)

Lemma char_at_lookup j :
  0 <= j < strlen p -> p !! Z.to_nat j = Some (char_at p j).
Proof.
  intros Hj. unfold char_at, strlen in *. rewrite nth_lookup.
  destruct (lookup_lt_is_Some_2 p (Z.to_nat j)) as [x Hx]; [lia|].
  by rewrite Hx.
Qed.

Lemma delta_match j : 0 <= j < strlen p -> delta p j (char_at p j) = j + 1.
Proof.
  intros Hj. unfold delta.
  rewrite (sigma_match _ _ (char_at_lookup j Hj)). lia.
Qed.

Lemma delta_bound s c : 0 <= delta p s c <= strlen p.
Proof.
  unfold delta, strlen.
  pose proof (sigma_le (take (Z.to_nat s) p ++ [c])). lia.
Qed.

Lemma delta_le_succ s c : 0 <= s -> delta p s c <= s + 1.
Proof.
  intros Hs. unfold delta.
  pose proof (sigma_length (take (Z.to_nat s) p ++ [c])) as H.
  rewrite length_app, length_take in H.
  change (length [c]) with 1%nat in H. lia.
Qed.

Lemma delta_0 c :
  1 <= strlen p -> delta p 0 c = if decide (c = char_at p 0) then 1 else 0.
Proof.
  intros Hm. case_decide as Hc.
  - subst c. rewrite delta_match; lia.
  - pose proof (delta_le_succ 0 c) as Hle. pose proof (delta_bound 0 c).
    destruct (decide (delta p 0 c = 1)) as [E|E]; [|lia].
    exfalso. apply Hc. unfold delta in E.
    change (take (Z.to_nat 0) p ++ [c]) with [c] in E.
    pose proof (sigma_suffix [c]) as Hs.
    replace (sigma p [c]) with 1%nat in Hs by lia.
    assert (0 <= 0 < strlen p) as H0 by lia.
    apply char_at_lookup in H0. change (Z.to_nat 0) with O in H0.
    rewrite (take_S_r _ _ _ H0), take_0 in Hs.
    apply (suffix_snoc_inv_1 _ _ [] []) in Hs. done.
Qed.

Lemma restart_bound j : 1 <= j <= strlen p -> 0 <= restart p j < j.
Proof.
  intros Hj. unfold restart, strlen in *.
  pose proof (sigma_length (drop 1 (take (Z.to_nat j) p))) as H.
  rewrite length_drop, length_take in H. lia.
Qed.

Lemma restart_1 : restart p 1 = 0.
Proof.
  unfold restart.
  pose proof (sigma_length (drop 1 (take (Z.to_nat 1) p))) as H.
  rewrite length_drop, length_take in H. lia.
Qed.

Lemma delta_restart j c :
  delta p (restart p j) c
  = Z.of_nat (sigma p (drop 1 (take (Z.to_nat j) p) ++ [c])).
Proof. unfold delta, restart. rewrite Nat2Z.id. by rewrite <- sigma_snoc. Qed.

Lemma delta_mismatch j c :
  0 <= j < strlen p -> c <> char_at p j -> delta p j c = delta p (restart p j) c.
Proof.
  intros Hj Hc. rewrite delta_restart. unfold delta. f_equal.
  eapply sigma_mismatch; eauto using char_at_lookup.
Qed.

Lemma restart_succ j :
  1 <= j < strlen p -> restart p (j + 1) = delta p (restart p j) (char_at p j).
Proof.
  intros Hj. rewrite delta_restart. unfold restart. do 2 f_equal.
  replace (Z.to_nat (j + 1)) with (Datatypes.S (Z.to_nat j)) by lia.
  rewrite (take_S_r _ _ _ (char_at_lookup j ltac:(lia))).
  apply drop_app_le. rewrite length_take. unfold strlen in Hj. lia.
Qed.

(** The accepting state is reached exactly when the pattern ends the
    word. *)
Lemma sigma_accept w :
  sigma p w = length p <-> p `suffix_of` w.
Proof.
  split.
  - intros E. pose proof (sigma_suffix w) as Hs.
    by rewrite E, firstn_all in Hs.
  - intros Hs. apply Nat.le_antisymm; [apply sigma_le|].
    apply sigma_max; [lia|]. by rewrite firstn_all.
Qed.

End Borders.

(** ** Loops and table accesses *)

Lemma for_loop_inv {S : Type} (I : Z -> S -> Prop) body n i (s : S) :
  I i s ->
  (forall k s, i <= k < i + Z.of_nat n -> I k s ->
               exists s', body k s = Ret s' /\ I (k + 1) s') ->
  exists s', for_loop n i body s = Ret s' /\ I (i + Z.of_nat n) s'.
Proof.
  revert i s. induction n as [|n IH]; intros i s Hi Hstep.
  - exists s. split; [done|]. by replace (i + Z.of_nat 0) with i by lia.
  - destruct (Hstep i s) as (s1 & E1 & H1); [lia|done|].
    destruct (IH (i + 1) s1) as (s2 & E2 & H2); [done| |].
    + intros k s' Hk. apply Hstep. lia.
    + exists s2. simpl. rewrite E1. simpl. split; [done|].
      by replace (i + Z.of_nat (Datatypes.S n)) with (i + 1 + Z.of_nat n) by lia.
Qed.

Lemma for_range_inv {S : Type} (I : Z -> S -> Prop) body lo hi (s : S) :
  lo <= hi -> I lo s ->
  (forall k s, lo <= k < hi -> I k s ->
               exists s', body k s = Ret s' /\ I (k + 1) s') ->
  exists s', for_range lo hi body s = Ret s' /\ I hi s'.
Proof.
  intros Hle Hi Hstep. unfold for_range.
  destruct (for_loop_inv I body (Z.to_nat (hi - lo)) lo s) as (s' & E & H);
    [done| |].
  - intros k s' Hk. apply Hstep. lia.
  - exists s'. split; [done|].
    by replace (lo + Z.of_nat (Z.to_nat (hi - lo))) with hi in H by lia.
Qed.

Lemma inside_true t c j :
  inside t c j = true <-> 0 <= c < RADIX /\ 0 <= j < cols t.
Proof. unfold inside. rewrite !andb_true_iff. lia. Qed.

Lemma store_inside t c j v :
  0 <= c < RADIX -> 0 <= j < cols t ->
  store t c j v = Ret (Table (cols t) (<[(c, j) := v]> (cells t))).
Proof.
  intros Hc Hj. unfold store.
  by rewrite (proj2 (inside_true t c j) (conj Hc Hj)).
Qed.

Lemma cell_neq (a b c d : Z) : (a, b) <> (c, d) -> a <> c \/ b <> d.
Proof.
  intros H. destruct (decide (a = c)) as [->|]; [right|by left].
  intros ->. by apply H.
Qed.

(** Case analysis on which cell a lookup after a store falls on. *)
Ltac cell_cases :=
  repeat case_decide; simplify_eq; try done;
  repeat match goal with
         | H : (_, _) <> (_, _) |- _ => apply cell_neq in H
         end;
  try lia.

Lemma wrap_small z : 0 <= z < 2 ^ 64 -> wrap z = z.
Proof. apply Z.mod_small. Qed.

(** ** The construction *)
Section Construction.

Variable char_signed : bool.
Variable junk : Z -> Z -> Z.

Lemma symbol_index b :
  symbol char_signed b = true ->
  index_of char_signed b = b /\ 1 <= b < RADIX.
Proof.
  unfold symbol, index_of, char_value, RADIX.
  rewrite !andb_true_iff. intros [[H0 H1] H2].
  destruct (char_signed && (128 <=? b)) eqn:E.
  - exfalso. apply andb_true_iff in E as [_ E].
    unfold wrap in H2.
    replace (b - 256) with (b - 256 + 2 ^ 64 + (-1) * 2 ^ 64) in H2 by lia.
    rewrite Z_mod_plus_full, Z.mod_small in H2; lia.
  - rewrite wrap_small; lia.
Qed.

Lemma symbols_inv s :
  symbols char_signed s = true ->
  Forall (fun b => symbol char_signed b = true) s /\ strlen s < 2 ^ 64.
Proof.
  unfold symbols. rewrite andb_true_iff, forallb_forall.
  intros [Hs Hl]. split; [|lia].
  apply Forall_forall. intros b Hb. apply Hs. by apply list_elem_of_In.
Qed.

Lemma symbols_char_at s j :
  symbols char_signed s = true -> 0 <= j < strlen s ->
  symbol char_signed (char_at s j) = true.
Proof.
  intros Hs Hj. apply symbols_inv in Hs as [Hs _].
  rewrite Forall_forall in Hs. apply Hs.
  apply list_elem_of_lookup. exists (Z.to_nat j). by apply char_at_lookup.
Qed.

Lemma load_inside t c j :
  0 <= c < RADIX -> 0 <= j < cols t ->
  load junk t c j = Ret (peek junk t c j).
Proof.
  intros Hc Hj. unfold load.
  by rewrite (proj2 (inside_true t c j) (conj Hc Hj)).
Qed.

(** Lines 46-49 store 0 in rows 1 to 255 of column 0, then 1 in the row of
    the pattern's first symbol, and nothing else. *)
Lemma init_column0_spec pattern t :
  cells t = ∅ -> 1 <= cols t ->
  symbol char_signed (char_at pattern 0) = true ->
  exists t',
    init_column0 char_signed pattern t = Ret t' /\
    cols t' = cols t /\
    forall c s,
      cells t' !! (c, s) =
        if decide (1 <= c < RADIX /\ s = 0)
        then Some (if decide (c = char_at pattern 0) then 1 else 0)
        else None.
Proof.
  intros Hempty Hcols Hx. apply symbol_index in Hx as [Hx Hr].
  unfold init_column0.
  destruct (for_range_inv
    (fun i t' => cols t' = cols t /\
       forall c s, cells t' !! (c, s) =
         if decide (1 <= c < i /\ s = 0) then Some 0 else None)
    (fun i dfa => store dfa i 0 0) 1 RADIX t) as (t1 & E1 & Hc1 & H1).
  - unfold RADIX. lia.
  - split; [done|]. intros c s. rewrite Hempty, lookup_empty.
    case_decide; [lia|done].
  - intros k t' Hk [Hc' H']. rewrite store_inside by lia.
    eexists. split; [done|]. split; [done|]. intros c s. simpl.
    rewrite lookup_insert, H'.
    cell_cases.
  - rewrite E1. simpl. rewrite Hx, store_inside by lia.
    eexists. split; [done|]. split; [done|]. intros c s. simpl.
    rewrite lookup_insert, H1.
    cell_cases.
Qed.

(** Lines 54-56 store, in every row of column [j], the content of that
    row in column [state]. *)
Lemma copy_column_spec state j t :
  0 <= state < cols t -> 0 <= j < cols t -> state <> j ->
  exists t',
    copy_column junk state j t = Ret t' /\
    cols t' = cols t /\
    forall c s,
      cells t' !! (c, s) =
        if decide (0 <= c < RADIX /\ s = j)
        then Some (peek junk t c state)
        else cells t !! (c, s).
Proof.
  intros Hst Hj Hne. unfold copy_column.
  destruct (for_range_inv
    (fun i t' => cols t' = cols t /\
       forall c s, cells t' !! (c, s) =
         if decide (0 <= c < i /\ s = j)
         then Some (peek junk t c state)
         else cells t !! (c, s))
    (fun c dfa => v <- load junk dfa c state ;; store dfa c j v)
    0 RADIX t) as (t1 & E1 & Hc1 & H1).
  - unfold RADIX. lia.
  - split; [done|]. intros c s. case_decide; [lia|done].
  - intros k t' Hk [Hc' H']. rewrite load_inside by lia. simpl.
    rewrite store_inside by lia.
    eexists. split; [done|]. split; [done|]. intros c s. simpl.
    rewrite lookup_insert, H'.
    assert (peek junk t' k state = peek junk t k state) as ->.
    { unfold peek. rewrite H'. case_decide; [lia|done]. }
    cell_cases.
  - by exists t1.
Qed.

End Construction.

Section Build.

Variable char_signed : bool.
Variable junk : Z -> Z -> Z.
Variable p : list Z.
Hypothesis Hp : symbols char_signed p = true.

(** One iteration of the construction loop takes the invariant from [j]
    to [j + 1]. *)
Lemma build_step_spec j st :
  1 <= j < strlen p -> built junk p j st ->
  exists st',
    build_step char_signed junk p j st = Ret st' /\
    built junk p (j + 1) st'.
Proof.
  intros Hj (Hcols & Hst & Hd & H00 & H0).
  destruct st as [t state]. simpl in *.
  pose proof (restart_bound p j ltac:(lia)) as Hr. rewrite <- Hst in Hr.
  destruct (symbol_index char_signed (char_at p j)) as [Hx Hxr];
    [apply symbols_char_at; [done|lia]|].
  destruct (symbols_inv _ _ Hp) as [_ Hlen].
  destruct (copy_column_spec junk state j t) as (t1 & E1 & Hc1 & H1);
    [lia..|].
  unfold build_step. rewrite E1. simpl.
  rewrite Hx, store_inside by lia. simpl.
  rewrite load_inside by (simpl; lia). simpl.
  eexists. split; [done|].
  assert (forall c, 1 <= c < RADIX ->
            default (junk c state) (cells t !! (c, state))
            = delta p (restart p j) c) as Hpeek.
  { intros c Hc. rewrite Hd by lia. simpl. by rewrite Hst. }
  repeat split; simpl.
  - lia.
  - rewrite restart_succ by lia. unfold peek. simpl.
    rewrite lookup_insert, H1. cell_cases. by apply Hpeek.
  - intros c s Hc Hs. rewrite lookup_insert, H1. unfold peek.
    case_decide as E.
    + simplify_eq. rewrite delta_match, wrap_small; [done|lia|lia].
    + apply cell_neq in E. case_decide as E'.
      * destruct E' as [_ ->]. rewrite Hpeek by done.
        rewrite <- delta_mismatch; [done|lia|]. intros ->. lia.
      * apply Hd; lia.
  - rewrite lookup_insert, H1. cell_cases.
  - intros s Hs. rewrite lookup_insert, H1. unfold peek.
    assert (default (junk 0 state) (cells t !! (0, state)) = junk 0 0)
      as Hrow0.
    { destruct (decide (state = 0)) as [->|Hne];
        [by rewrite H00 | by rewrite H0 by lia]. }
    cell_cases; first [by rewrite Hrow0 | apply H0; lia].
Qed.

(** Column 0 establishes the invariant at 1. *)
Lemma init_built :
  1 <= strlen p ->
  exists t,
    init_column0 char_signed p (Table (strlen p) ∅) = Ret t /\
    built junk p 1 (t, 0).
Proof.
  intros Hm.
  destruct (init_column0_spec char_signed p (Table (strlen p) ∅))
    as (t & E & Hc & H); [done|done|apply symbols_char_at; [done|lia]|].
  exists t. split; [done|]. repeat split; simpl.
  - done.
  - by rewrite restart_1.
  - intros c s Hcr Hs. rewrite H. assert (s = 0) as -> by lia.
    rewrite delta_0 by done. cell_cases.
  - rewrite H. cell_cases.
  - intros s Hs. lia.
Qed.

(** The construction does not fault and ends with the invariant at
    [strlen p]. *)
Lemma build_state_spec :
  1 <= strlen p ->
  exists st,
    build_state char_signed junk p = Ret st /\ built junk p (strlen p) st.
Proof.
  intros Hm. unfold build_state.
  destruct (init_built Hm) as (t & E & Ht). rewrite E. simpl.
  unfold build_from.
  apply (for_range_inv (built junk p)); [done|done|].
  intros k s Hk Hs. by apply build_step_spec.
Qed.

Lemma build_spec :
  1 <= strlen p ->
  exists t,
    build char_signed junk p = Ret t /\
    built junk p (strlen p) (t, restart p (strlen p)).
Proof.
  intros Hm. destruct (build_state_spec Hm) as ([t s] & E & H).
  exists t. unfold build. rewrite E. simpl. split; [done|].
  destruct H as (? & Hs & ?). simpl in Hs. by subst s.
Qed.

End Build.

(** ** The scan *)
Section Scan.

Variable char_signed : bool.
Variable junk : Z -> Z -> Z.
Variable p : list Z.
Variable t : table.
Hypothesis Hm : 1 <= strlen p.
Hypothesis Ht : recognises p t.

Lemma load_delta c s :
  symbol char_signed c = true -> 0 <= s < strlen p ->
  load junk t (index_of char_signed c) s = Ret (delta p s c).
Proof.
  intros Hc Hs. apply symbol_index in Hc as [-> Hc].
  destruct Ht as [Hcols Hcells].
  rewrite load_inside by lia. unfold peek. by rewrite Hcells.
Qed.

Lemma load_sigma c w :
  symbol char_signed c = true -> (sigma p w < length p)%nat ->
  load junk t (index_of char_signed c) (Z.of_nat (sigma p w))
  = Ret (Z.of_nat (sigma p (w ++ [c]))).
Proof.
  intros Hc Hw. rewrite load_delta; [|done|unfold strlen; lia].
  unfold delta. by rewrite Nat2Z.id, <- sigma_snoc.
Qed.

Lemma wrap_offset i m : 0 <= i - m + 1 < 2 ^ 64 -> wrap (wrap (i - m) + 1) = i - m + 1.
Proof.
  intros H. unfold wrap. rewrite Z.add_mod_idemp_l by lia.
  by apply Z.mod_small.
Qed.

(** The scan from a position where the state is the automaton's and no
    occurrence has ended yet returns the leftmost occurrence. *)
Lemma run_spec text :
  symbols char_signed text = true ->
  forall rest w,
    text = w ++ rest ->
    (sigma p w < length p)%nat ->
    (forall o, occurs_at p text o -> strlen w < o + strlen p) ->
    exists r,
      run char_signed junk t (strlen p) rest (strlen w)
          (Z.of_nat (sigma p w)) = Ret r /\
      leftmost p text r.
Proof.
  intros Htext. destruct (symbols_inv _ _ Htext) as [Hsym Hlen].
  induction rest as [|c rest IH]; intros w Hw Hst Hno.
  - exists None. split; [done|]. intros o Ho. specialize (Hno o Ho).
    destruct Ho as (pre & post & E & <-). subst text.
    rewrite app_nil_r in E. subst w.
    unfold strlen in Hno. rewrite !length_app in Hno. lia.
  - assert (symbol char_signed c = true) as Hc.
    { rewrite Forall_forall in Hsym. apply Hsym. subst text.
      apply elem_of_app. right. apply elem_of_cons. by left. }
    simpl. rewrite load_sigma by done. simpl.
    pose proof (sigma_le p (w ++ [c])) as Hle.
    destruct (strlen p <=? Z.of_nat (sigma p (w ++ [c]))) eqn:Hacc.
    + apply Z.leb_le in Hacc. unfold strlen in Hacc.
      assert (sigma p (w ++ [c]) = length p) as Hfull by lia.
      apply sigma_accept in Hfull as [pre Hpre].
      assert (strlen w + 1 = strlen pre + strlen p) as Hsz.
      { apply (f_equal length) in Hpre. rewrite !length_app in Hpre.
        simpl in Hpre. unfold strlen. lia. }
      assert (strlen pre <= strlen text) as Hpt.
      { subst text. unfold strlen in *. rewrite length_app. simpl. lia. }
      exists (Some (strlen pre)). split.
      * rewrite wrap_offset; [do 2 f_equal; lia|]. unfold strlen in *. lia.
      * split.
        -- exists pre, rest. split; [|done].
           rewrite app_assoc, <- Hpre, <- app_assoc. done.
        -- intros o' Ho'. specialize (Hno o' Ho'). lia.
    + apply Z.leb_gt in Hacc.
      destruct (IH (w ++ [c])) as (r & Er & Hr).
      * by rewrite <- app_assoc.
      * unfold strlen in Hacc. lia.
      * intros o Ho. specialize (Hno o Ho).
        assert (strlen (w ++ [c]) = strlen w + 1) as ->.
        { unfold strlen. rewrite length_app. simpl. lia. }
        destruct (decide (strlen w + 1 = o + strlen p)) as [E|]; [|lia].
        exfalso. destruct Ho as (pre & post & Et & Eo).
        rewrite Hw in Et.
        replace (w ++ c :: rest) with ((w ++ [c]) ++ rest) in Et
          by by rewrite <- app_assoc.
        rewrite (app_assoc pre) in Et.
        apply app_inj_1 in Et as [Et _].
        -- assert (sigma p (w ++ [c]) = length p) as Hfull.
           { apply sigma_accept. exists pre. done. }
           unfold strlen in Hacc. lia.
        -- unfold strlen in *. rewrite !length_app. simpl. lia.
      * exists r. split; [|done].
        replace (strlen w + 1) with (strlen (w ++ [c])); [done|].
        unfold strlen. rewrite length_app. simpl. lia.
Qed.

(** The scan of a whole text. *)
Lemma scan_spec text :
  symbols char_signed text = true ->
  exists r, scan char_signed junk t text = Ret r /\ leftmost p text r.
Proof.
  intros Htext. unfold scan. destruct Ht as [Hcols _]. rewrite Hcols.
  destruct (run_spec text Htext text []) as (r & E & Hr).
  - done.
  - rewrite sigma_nil. unfold strlen in Hm. lia.
  - intros o (pre & post & _ & <-). unfold strlen in *. simpl. lia.
  - exists r. split; [|done]. by rewrite sigma_nil in E.
Qed.

End Scan.

(** ** The first accepting position *)

Lemma leftmost_unique p t r1 r2 :
  leftmost p t r1 -> leftmost p t r2 -> r1 = r2.
Proof.
  destruct r1 as [o1|], r2 as [o2|]; simpl.
  - intros [H1 M1] [H2 M2]. f_equal.
    pose proof (M1 _ H2). pose proof (M2 _ H1). lia.
  - intros [H1 _] H2. by destruct (H2 _ H1).
  - intros H1 [H2 _]. by destruct (H1 _ H2).
  - done.
Qed.

Lemma occurs_at_take p text o :
  occurs_at p text o <->
  0 <= o /\ o + strlen p <= strlen text /\
  p `suffix_of` take (Z.to_nat (o + strlen p)) text.
Proof.
  split.
  - intros (pre & post & -> & <-). unfold strlen. rewrite !length_app.
    split; [lia|]. split; [lia|]. exists pre.
    rewrite app_assoc. apply take_app_length'. rewrite length_app. lia.
  - unfold strlen. intros (Ho & Hlen & [pre Hpre]).
    exists pre, (drop (Z.to_nat (o + Z.of_nat (length p))) text). split.
    + by rewrite app_assoc, <- Hpre, take_drop.
    + apply (f_equal length) in Hpre.
      rewrite length_take, length_app in Hpre. unfold strlen. lia.
Qed.

Section Accept.

Variable char_signed : bool.
Variable junk : Z -> Z -> Z.
Variable p : list Z.
Variable t : table.
Hypothesis Hm : 1 <= strlen p.
Hypothesis Ht : recognises p t.

Lemma dfa_state_snoc w c s :
  dfa_state char_signed junk t (w ++ [c]) s
  = (s' <- dfa_state char_signed junk t w s ;;
     load junk t (index_of char_signed c) s').
Proof.
  revert s. induction w as [|a w IH]; intros s; simpl.
  - by destruct (load junk t (index_of char_signed c) s).
  - destruct (load junk t (index_of char_signed a) s); simpl; [apply IH|done].
Qed.

(** As long as no prefix ends with the pattern, the scan's state is the
    automaton's. *)
Lemma dfa_state_quiet text k :
  Forall (fun b => symbol char_signed b = true) text ->
  quiet p text k ->
  dfa_state char_signed junk t (take k text) 0
  = Ret (Z.of_nat (sigma p (take k text))).
Proof.
  intros Hsym. induction k as [|k IH]; intros Hq.
  - rewrite take_0, sigma_nil. done.
  - assert (quiet p text k) as Hq' by (intros n Hn; apply Hq; lia).
    destruct (text !! k) as [c|] eqn:E.
    + rewrite (take_S_r _ _ _ E), dfa_state_snoc, IH by done. simpl.
      apply load_sigma; [done| |].
      * rewrite Forall_forall in Hsym. apply Hsym.
        apply list_elem_of_lookup. by exists k.
      * apply Hq. lia.
    + apply lookup_ge_None in E.
      rewrite take_ge by lia. rewrite take_ge in IH by lia. by apply IH.
Qed.

Lemma first_accept_quiet text i :
  Forall (fun b => symbol char_signed b = true) text ->
  first_accept char_signed junk t text i ->
  quiet p text (Z.to_nat (i + 1)).
Proof.
  intros Hsym (Hi & _ & Hbelow).
  assert (forall k, (k <= Z.to_nat (i + 1))%nat -> quiet p text k) as H.
  { induction k as [|k IH]; intros Hk.
    - intros n Hn. lia.
    - assert (quiet p text k) as Hq by (apply IH; lia).
      intros n Hn. destruct (decide (n = k)) as [->|]; [|apply Hq; lia].
      destruct (Hbelow (Z.of_nat k)) as (s & Es & Hs); [lia|].
      rewrite Nat2Z.id, (dfa_state_quiet text k Hsym Hq) in Es.
      destruct Ht as [Hcols _]. simplify_eq. unfold strlen in *. lia. }
  by apply H.
Qed.

Lemma quiet_no_occurrence text k o :
  quiet p text k -> occurs_at p text o -> Z.of_nat k <= o + strlen p.
Proof.
  intros Hq Ho. apply occurs_at_take in Ho as (Ho & Hlen & Hs).
  destruct (decide (Z.of_nat k <= o + strlen p)) as [|Hlt]; [done|].
  exfalso. apply sigma_accept in Hs.
  specialize (Hq (Z.to_nat (o + strlen p))). lia.
Qed.

(** The first accepting position is where the leftmost occurrence
    ends. *)
Lemma first_accept_leftmost text i :
  Forall (fun b => symbol char_signed b = true) text ->
  first_accept char_signed junk t text i ->
  leftmost p text (Some (i - strlen p + 1)).
Proof.
  intros Hsym Hfa. pose proof (first_accept_quiet text i Hsym Hfa) as Hq.
  destruct Hfa as (Hi & (s & Es & Hs) & Hbelow).
  rewrite (dfa_state_quiet text _ Hsym Hq) in Es.
  destruct Ht as [Hcols _]. simplify_eq.
  pose proof (sigma_le p (take (Z.to_nat (i + 1)) text)) as Hle.
  assert (sigma p (take (Z.to_nat (i + 1)) text) = length p) as Hfull
    by (unfold strlen in *; lia).
  assert (i + 1 <= strlen text) as Hin.
  { destruct (decide (i + 1 <= strlen text)) as [|Hout]; [done|].
    exfalso. destruct (Hbelow (strlen text)) as (s & Es & Hlt);
      [unfold strlen in *; lia|].
    rewrite (dfa_state_quiet text _ Hsym) in Es.
    - simplify_eq. unfold strlen in *.
      rewrite take_ge in Hfull by lia. rewrite take_ge in Hlt by lia. lia.
    - intros n Hn. apply Hq. unfold strlen in *. lia. }
  pose proof (sigma_length p (take (Z.to_nat (i + 1)) text)) as Hl.
  rewrite length_take in Hl.
  split.
  - apply occurs_at_take. unfold strlen in *.
    split; [lia|]. split; [lia|].
    replace (i - Z.of_nat (length p) + 1 + Z.of_nat (length p))
      with (i + 1) by lia.
    by apply sigma_accept.
  - intros o Ho. pose proof (quiet_no_occurrence _ _ _ Hq Ho). lia.
Qed.

(** Conversely, the scan first accepts where the leftmost occurrence
    ends. *)
Lemma leftmost_first_accept text o :
  Forall (fun b => symbol char_signed b = true) text ->
  leftmost p text (Some o) ->
  first_accept char_signed junk t text (o + strlen p - 1).
Proof.
  intros Hsym [Hocc Hmin].
  pose proof Hocc as Hocc'.
  apply occurs_at_take in Hocc' as (Ho & Hlen & Hs).
  assert (quiet p text (Z.to_nat (o + strlen p))) as Hq.
  { intros n Hn.
    pose proof (sigma_le p (take n text)) as Hle.
    destruct (decide (sigma p (take n text) = length p)) as [E|]; [|lia].
    exfalso. pose proof (sigma_length p (take n text)) as Hl.
    rewrite length_take in Hl.
    assert (occurs_at p text (Z.of_nat n - strlen p)) as Hocc2.
    { apply occurs_at_take. unfold strlen in *.
      split; [lia|]. split; [lia|].
      replace (Z.to_nat (Z.of_nat n - Z.of_nat (length p)
                         + Z.of_nat (length p))) with n by lia.
      by apply sigma_accept. }
    apply Hmin in Hocc2. lia. }
  destruct Ht as [Hcols _].
  split; [lia|]. split.
  - replace (o + strlen p - 1 + 1) with (o + strlen p) by lia.
    rewrite (dfa_state_quiet text _ Hsym Hq).
    eexists. split; [done|].
    apply sigma_accept in Hs. unfold strlen in *. lia.
  - intros k Hk.
    rewrite (dfa_state_quiet text _ Hsym).
    + eexists. split; [done|].
      specialize (Hq (Z.to_nat k)). unfold strlen in *. lia.
    + intros n Hn. apply Hq. lia.
Qed.

End Accept.

(** ** The search as a whole *)
Section Search.

Variable char_signed : bool.

Lemma nonempty_strlen (p : list Z) : p <> [] -> 1 <= strlen p.
Proof. unfold strlen. destruct p; [done|]. simpl. lia. Qed.

Lemma built_recognises junk p st :
  built junk p (strlen p) st -> recognises p (fst st).
Proof. intros (Hc & _ & Hd & _). by split. Qed.

(** The table of a non-empty pattern is built without fault and holds
    the pattern's automaton. *)
Lemma build_recognises junk p :
  p <> [] -> symbols char_signed p = true ->
  exists dfa,
    build char_signed junk p = Ret dfa /\
    recognises p dfa /\
    cells dfa !! (0, 0) = None /\
    forall s, 1 <= s < strlen p -> cells dfa !! (0, s) = Some (junk 0 0).
Proof.
  intros Hne Hp. apply nonempty_strlen in Hne.
  destruct (build_spec char_signed junk p Hp Hne) as (dfa & E & H).
  exists dfa. split; [done|]. split; [by apply built_recognises in H|].
  destruct H as (_ & _ & _ & H00 & H0). by split.
Qed.

(** The search returns the leftmost occurrence, whatever the stack held
    where the table is allocated. *)
Lemma kmp_spec junk p text :
  p <> [] -> symbols char_signed p = true ->
  symbols char_signed text = true ->
  exists dfa r,
    build char_signed junk p = Ret dfa /\
    recognises p dfa /\
    (forall junk', scan char_signed junk' dfa text = Ret r) /\
    kmp char_signed junk text p = Ret r /\
    leftmost p text r.
Proof.
  intros Hne Hp Htext.
  destruct (build_recognises junk p Hne Hp) as (dfa & E & Hrec & _).
  apply nonempty_strlen in Hne.
  destruct (scan_spec char_signed junk p dfa Hne Hrec text Htext)
    as (r & Er & Hr).
  exists dfa, r. split; [done|]. split; [done|]. split.
  - intros junk'.
    destruct (scan_spec char_signed junk' p dfa Hne Hrec text Htext)
      as (r' & Er' & Hr').
    by rewrite (leftmost_unique _ _ _ _ Hr Hr').
  - split; [|done]. unfold kmp. by rewrite E.
Qed.


Lemma unsigned_symbol b : 1 <= b < 256 -> symbol false b = true.
Proof.
  intros Hb. unfold symbol, index_of, char_value, RADIX. simpl.
  rewrite wrap_small by lia. rewrite !andb_true_iff. lia.
Qed.


End Search.

(** ** What holds of rows 1 to 255 of the table

    The pattern of this section is non-empty and over the bytes the table
    has rows for. *)
Section Rows.

Variable char_signed : bool.
Variable junk : Z -> Z -> Z.
Variable p : list Z.
Hypothesis Hne : p <> [].
Hypothesis Hp : symbols char_signed p = true.

(** Every entry of the rows of the symbols 1 to 255 is stored, with a
    state of the automaton. *)
Lemma table_total_from_symbol_1 :
  exists dfa,
    build char_signed junk p = Ret dfa /\
    cols dfa = strlen p /\
    forall c s, 1 <= c < RADIX -> 0 <= s < strlen p ->
      exists v, cells dfa !! (c, s) = Some v /\ 0 <= v <= strlen p.
Proof.
  destruct (build_recognises char_signed junk p Hne Hp)
    as (dfa & E & [Hc Hd] & _).
  exists dfa. split; [done|]. split; [done|]. intros c s Hcr Hs.
  exists (delta p s c). split; [by apply Hd | apply delta_bound].
Qed.

(** Column 0, for the symbols 1 to 255, of the table built from such a
    pattern. *)
Lemma column0_from_symbol_1 :
  exists dfa,
    build char_signed junk p = Ret dfa /\
    forall c, 1 <= c < RADIX ->
      cells dfa !! (c, 0) = Some (if decide (c = char_at p 0) then 1 else 0).
Proof.
  destruct (build_recognises char_signed junk p Hne Hp)
    as (dfa & E & [Hc Hd] & _).
  pose proof (nonempty_strlen p Hne) as Hm.
  exists dfa. split; [done|]. intros c Hcr.
  rewrite Hd by lia. by rewrite delta_0.
Qed.

(** The loop state at the start of iteration [j] of the construction from
    such a pattern: the restart state is below [j] and the entries of rows
    1 to 255 of column [s] are at most [s + 1]. *)
Lemma restart_cursor_below j :
  1 <= j <= strlen p ->
  exists t0 st,
    init_column0 char_signed p (Table (strlen p) ∅) = Ret t0 /\
    for_range 1 j (build_step char_signed junk p) (t0, 0) = Ret st /\
    0 <= snd st < j /\
    forall c s, 1 <= c < RADIX -> 0 <= s < j ->
      exists v, cells (fst st) !! (c, s) = Some v /\ 0 <= v <= s + 1.
Proof.
  intros Hj. pose proof (nonempty_strlen p Hne) as Hm.
  destruct (init_built char_signed junk p Hp Hm) as (t0 & E0 & H0).
  destruct (for_range_inv (built junk p)
              (build_step char_signed junk p) 1 j (t0, 0))
    as (st & E & H); [lia|done| |].
  - intros k s Hk Hs. apply build_step_spec; [done|lia|done].
  - exists t0, st. split; [done|]. split; [done|].
    destruct H as (_ & Hst & Hd & _). split.
    + rewrite Hst. apply restart_bound. lia.
    + intros c s Hc Hs. exists (delta p s c). split; [by apply Hd|].
      pose proof (delta_bound p s c). pose proof (delta_le_succ p s c). lia.
Qed.

End Rows.

(** * The claims of the specification *)

(** C2, as the specification states it, fails: on the empty pattern the
    construction does not come back to its caller with any condition.  It
    has undefined behaviour, no [InvalidPattern] or other value being
    handed back. *)
Lemma empty_pattern_not_reported :
  ~ defined (build true (fun _ _ => 0) []).
Proof. intros [dfa E]. vm_compute in E. discriminate. Qed.

(** C2, amended.  [kmp] does not check the length of the pattern and has no
    [InvalidPattern] condition: with an empty pattern the table has no
    column, the first store of line 47, [dfa[1][0] = 0], is already outside
    of it, and the behaviour of the construction, and of the search with
    it, is undefined whatever the text. *)
Theorem empty_pattern_undefined char_signed junk text :
  build char_signed junk [] = UB (StoreOutside 1 0) /\
  kmp char_signed junk text [] = UB (StoreOutside 1 0).
Proof. split; reflexivity. Qed.

(** C3 at the pattern "ab": the construction stores nothing in
    [dfa[0][0]], so that the entry of symbol 0 in state 0 is what the stack
    held, and line 55 loads it to make the entry of symbol 0 in state 1 of
    it. *)
Theorem row0_never_initialised char_signed junk :
  (dfa <- build char_signed junk (cstr "ab") ;;
   Ret (cols dfa, cells dfa !! (0, 0), peek junk dfa 0 0, cells dfa !! (0, 1)))
  = Ret (2, None, junk 0 0, Some (junk 0 0)).
Proof. destruct char_signed; vm_compute; reflexivity. Qed.

(** C4 at the pattern "a": symbol 0 is not the pattern's first symbol, and
    its entry in column 0 is not set to 0: lines 46-48 start at row 1, and
    the entry is what the stack held. *)
Theorem column0_symbol0_left_unset char_signed junk :
  (dfa <- build char_signed junk (cstr "a") ;;
   Ret (char_at (cstr "a") 0, cells dfa !! (0, 0), peek junk dfa 0 0))
  = Ret (97, None, junk 0 0).
Proof. destruct char_signed; vm_compute; reflexivity. Qed.

(** C5 where [char] is signed: the byte 128 is the [char] -128, which
    [(size_t)] turns into 2^64 - 128, a row the table does not have; line 49
    stores there for a pattern that starts with it and line 68 loads from
    there for a text that holds it. *)
Theorem signed_char_indexes_outside_table junk :
  index_of true 128 = 2 ^ 64 - 128 /\
  build true junk [128] = UB (StoreOutside (2 ^ 64 - 128) 0) /\
  kmp true junk [128] (cstr "a") = UB (LoadOutside (2 ^ 64 - 128) 0).
Proof. vm_compute. done. Qed.

(** C8. The search of "aaaa" for "aa", of "aabaabaaba" for "aaba" and of
    "ababab" for "abab" returns offset 0, the earliest occurrence; the
    search of "aaaa" for "xyz" returns [NULL]. *)
Theorem kmp_examples char_signed junk :
  kmp char_signed junk (cstr "aaaa") (cstr "aa") = Ret (Some 0) /\
  kmp char_signed junk (cstr "aabaabaaba") (cstr "aaba") = Ret (Some 0) /\
  kmp char_signed junk (cstr "ababab") (cstr "abab") = Ret (Some 0) /\
  kmp char_signed junk (cstr "aaaa") (cstr "xyz") = Ret None.
Proof. destruct char_signed; vm_compute; done. Qed.

(** C10 at the pattern "aa": iteration 1 of the construction loop starts
    with the restart state 0, below 1, but column 0, which it copies, has
    no entry stored in row 0, and the entry the iteration stores in row 0
    of column 1 is what the stack held, not a state of at most 2. *)
Theorem iteration_copies_unset_entry char_signed junk :
  (t0 <- init_column0 char_signed (cstr "aa") (Table 2 ∅) ;;
   st <- build_step char_signed junk (cstr "aa") 1 (t0, 0) ;;
   Ret (cells t0 !! (0, 0), snd st, cells (fst st) !! (0, 1)))
  = Ret (None, 1, Some (junk 0 0)) /\
  (st <- build_state char_signed junk (cstr "aa") ;;
   Ret (snd st, cells (fst st) !! (0, 1)))
  = Ret (1, Some (junk 0 0)).
Proof. destruct char_signed; vm_compute; split; reflexivity. Qed.

(** * Further properties of the search *)

(** For every non-empty pattern [p] and every text [t] over the bytes
    the table has rows for, [kmp] (the scan of [t] with the table
    built from [p]) returns the smallest offset at which [p] occurs in [t],
    and [NULL] when [p] does not occur in [t]; the returned offset is
    [i - m + 1] for the first position [i] at which the scan reaches the
    accepting state [m], and the scan does reach it there. *)
Theorem kmp_returns_leftmost_occurrence char_signed junk p t :
  p <> [] ->
  symbols char_signed p = true ->
  symbols char_signed t = true ->
  exists dfa r,
    build char_signed junk p = Ret dfa /\
    kmp char_signed junk t p = Ret r /\
    leftmost p t r /\
    (forall i, first_accept char_signed junk dfa t i ->
               r = Some (i - strlen p + 1)) /\
    (forall o, r = Some o ->
               first_accept char_signed junk dfa t (o + strlen p - 1)).
Proof.
  intros Hne Hp Ht.
  destruct (kmp_spec char_signed junk p t Hne Hp Ht)
    as (dfa & r & Eb & Hrec & _ & Ek & Hr).
  pose proof (nonempty_strlen p Hne) as Hm.
  destruct (symbols_inv _ _ Ht) as [Hsym _].
  exists dfa, r. do 3 (split; [done|]). split.
  - intros i Hi. eapply leftmost_unique; [done|].
    eapply first_accept_leftmost; eauto.
  - intros o ->. eapply leftmost_first_accept; eauto.
Qed.

Lemma kmp_returns_leftmost_occurrence_witness :
  cstr "aba" <> [] /\
  symbols true (cstr "aba") = true /\
  symbols true (cstr "xxabay") = true /\
  exists dfa r,
    build true (fun _ _ => 7) (cstr "aba") = Ret dfa /\
    kmp true (fun _ _ => 7) (cstr "xxabay") (cstr "aba") = Ret r /\
    leftmost (cstr "aba") (cstr "xxabay") r /\
    (forall i, first_accept true (fun _ _ => 7) dfa (cstr "xxabay") i ->
               r = Some (i - strlen (cstr "aba") + 1)) /\
    (forall o, r = Some o ->
               first_accept true (fun _ _ => 7) dfa (cstr "xxabay")
                 (o + strlen (cstr "aba") - 1)).
Proof.
  split; [simpl; discriminate|]. split; [reflexivity|]. split; [reflexivity|].
  apply kmp_returns_leftmost_occurrence;
    [simpl; discriminate | reflexivity | reflexivity].
Defined.

(** For every non-empty pattern over the bytes the table has rows for,
    the search of the empty text returns [NULL]; the search of "" for "a" returns [NULL] and the search of "a"
    for "a" returns offset 0. *)
Theorem kmp_empty_text char_signed junk p :
  p <> [] ->
  symbols char_signed p = true ->
  kmp char_signed junk [] p = Ret None /\
  kmp char_signed junk (cstr "") (cstr "a") = Ret None /\
  kmp char_signed junk (cstr "a") (cstr "a") = Ret (Some 0).
Proof.
  intros Hne Hp. split.
  - destruct (build_recognises char_signed junk p Hne Hp) as (dfa & E & _).
    unfold kmp. by rewrite E.
  - destruct char_signed; vm_compute; done.
Qed.

Lemma kmp_empty_text_witness :
  cstr "abc" <> [] /\
  symbols false (cstr "abc") = true /\
  kmp false (fun _ _ => 7) [] (cstr "abc") = Ret None /\
  kmp false (fun _ _ => 7) (cstr "") (cstr "a") = Ret None /\
  kmp false (fun _ _ => 7) (cstr "a") (cstr "a") = Ret (Some 0).
Proof.
  split; [simpl; discriminate|]. split; [reflexivity|].
  apply kmp_empty_text; [simpl; discriminate | reflexivity].
Defined.

(** For every non-empty pattern [p] over the bytes the table has rows
    for, the search of [p] for [p] returns offset 0. *)
Theorem kmp_self_match char_signed junk p :
  p <> [] ->
  symbols char_signed p = true ->
  kmp char_signed junk p p = Ret (Some 0).
Proof.
  intros Hne Hp.
  destruct (kmp_spec char_signed junk p p Hne Hp Hp)
    as (dfa & r & _ & _ & _ & Ek & Hr).
  rewrite Ek. f_equal. eapply leftmost_unique; [done|]. split.
  - exists [], []. by rewrite app_nil_r.
  - intros o (pre & _ & _ & <-). unfold strlen. lia.
Qed.

Lemma kmp_self_match_witness :
  cstr "abab" <> [] /\
  symbols true (cstr "abab") = true /\
  kmp true (fun _ _ => 7) (cstr "abab") (cstr "abab") = Ret (Some 0).
Proof.
  split; [simpl; discriminate|]. split; [reflexivity|].
  apply kmp_self_match; [simpl; discriminate | reflexivity].
Defined.

Lemma table_total_from_symbol_1_witness :
  cstr "abab" <> [] /\
  symbols true (cstr "abab") = true /\
  exists dfa,
    build true (fun _ _ => 7) (cstr "abab") = Ret dfa /\
    cols dfa = strlen (cstr "abab") /\
    forall c s, 1 <= c < RADIX -> 0 <= s < strlen (cstr "abab") ->
      exists v, cells dfa !! (c, s) = Some v /\ 0 <= v <= strlen (cstr "abab").
Proof.
  split; [simpl; discriminate|]. split; [reflexivity|].
  apply (table_total_from_symbol_1 true);
    [simpl; discriminate | reflexivity].
Defined.

Lemma column0_from_symbol_1_witness :
  cstr "abab" <> [] /\
  symbols true (cstr "abab") = true /\
  exists dfa,
    build true (fun _ _ => 7) (cstr "abab") = Ret dfa /\
    forall c, 1 <= c < RADIX ->
      cells dfa !! (c, 0)
      = Some (if decide (c = char_at (cstr "abab") 0) then 1 else 0).
Proof.
  split; [simpl; discriminate|]. split; [reflexivity|].
  apply (column0_from_symbol_1 true);
    [simpl; discriminate | reflexivity].
Defined.

Lemma restart_cursor_below_witness :
  cstr "abab" <> [] /\
  symbols true (cstr "abab") = true /\
  1 <= 3 <= strlen (cstr "abab") /\
  exists t0 st,
    init_column0 true (cstr "abab") (Table (strlen (cstr "abab")) ∅)
    = Ret t0 /\
    for_range 1 3 (build_step true (fun _ _ => 7) (cstr "abab")) (t0, 0)
    = Ret st /\
    0 <= snd st < 3 /\
    forall c s, 1 <= c < RADIX -> 0 <= s < 3 ->
      exists v, cells (fst st) !! (c, s) = Some v /\ 0 <= v <= s + 1.
Proof.
  split; [simpl; discriminate|]. split; [reflexivity|].
  split; [unfold strlen; simpl; lia|].
  apply (restart_cursor_below true);
    [simpl; discriminate | reflexivity | unfold strlen; simpl; lia].
Defined.

Lemma char_at_app_r (l1 l2 : list Z) i :
  0 <= i -> char_at (l1 ++ l2) (strlen l1 + i) = char_at l2 i.
Proof.
  intros Hi. unfold char_at, strlen.
  rewrite app_nth2 by lia. f_equal. lia.
Qed.

Lemma char_at_app_l (l1 l2 : list Z) i :
  0 <= i < strlen l1 -> char_at (l1 ++ l2) i = char_at l1 i.
Proof.
  intros Hi. unfold char_at, strlen in *. apply app_nth1. lia.
Qed.

Lemma occurs_at_chars p t o :
  occurs_at p t o ->
  0 <= o /\ o + strlen p <= strlen t /\
  forall i, 0 <= i < strlen p -> char_at t (o + i) = char_at p i.
Proof.
  intros (pre & post & -> & <-).
  split; [unfold strlen; lia|]. split.
  - unfold strlen. rewrite !length_app. lia.
  - intros i Hi. rewrite char_at_app_r by lia. by apply char_at_app_l.
Qed.

(** A text shorter than the pattern, both over the bytes the table has
    rows for, is searched without fault and gives [NULL]. *)
Theorem kmp_short_text char_signed junk p t :
  symbols char_signed p = true ->
  symbols char_signed t = true ->
  strlen t < strlen p ->
  kmp char_signed junk t p = Ret None.
Proof.
  intros Hp Ht Hlt.
  assert (p <> []) as Hne by (intros ->; unfold strlen in Hlt; simpl in Hlt; lia).
  destruct (kmp_spec char_signed junk p t Hne Hp Ht)
    as (dfa & r & _ & _ & _ & Ek & Hr).
  rewrite Ek. f_equal. destruct r as [o|]; [|done].
  destruct Hr as [Ho _]. apply occurs_at_chars in Ho. lia.
Qed.

Lemma kmp_short_text_witness :
  symbols true (cstr "abc") = true /\
  symbols true (cstr "ab") = true /\
  strlen (cstr "ab") < strlen (cstr "abc") /\
  kmp true (fun _ _ => 7) (cstr "ab") (cstr "abc") = Ret None.
Proof.
  split; [reflexivity|]. split; [reflexivity|]. split; [unfold strlen; simpl; lia|].
  apply kmp_short_text; [reflexivity | reflexivity | unfold strlen; simpl; lia].
Defined.

Lemma run_found_prefix char_signed junk dfa m w rest :
  forall i state o,
    run char_signed junk dfa m w i state = Ret (Some o) ->
    run char_signed junk dfa m (w ++ rest) i state = Ret (Some o).
Proof.
  induction w as [|c w IH]; intros i state o; simpl; [done|].
  destruct (load junk dfa (index_of char_signed c) state); simpl; [|done].
  case_match; [done|apply IH].
Qed.

(** The scan stops at the first occurrence: what follows it in the text,
    whatever bytes these are, is not read and does not change the
    result. *)
Theorem kmp_stops_at_first_match char_signed junk p w rest o :
  kmp char_signed junk w p = Ret (Some o) ->
  kmp char_signed junk (w ++ rest) p = Ret (Some o).
Proof.
  unfold kmp. destruct (build char_signed junk p); simpl; [|done].
  apply run_found_prefix.
Qed.

Lemma kmp_stops_at_first_match_witness :
  kmp true (fun _ _ => 7) (cstr "xab") (cstr "ab") = Ret (Some 1) /\
  kmp true (fun _ _ => 7) (cstr "xab" ++ [200; 0; 300]) (cstr "ab")
  = Ret (Some 1).
Proof.
  split; [reflexivity|].
  apply (kmp_stops_at_first_match true (fun _ _ => 7)). reflexivity.
Defined.

Lemma bytes_symbols_unsigned s :
  Forall (fun b => 1 <= b < 256) s -> strlen s < 2 ^ 64 ->
  symbols false s = true.
Proof.
  intros Hs Hl. unfold symbols. apply andb_true_iff. split; [|lia].
  apply forallb_forall. intros b Hb. apply unsigned_symbol.
  rewrite Forall_forall in Hs. apply Hs. by apply list_elem_of_In.
Qed.

(** Where [char] is unsigned, the search is defined for every non-empty
    pattern and every text, over all the byte values a C string can hold,
    and returns the leftmost occurrence. *)
Theorem kmp_unsigned_char junk p t :
  p <> [] ->
  Forall (fun b => 1 <= b < 256) p -> strlen p < 2 ^ 64 ->
  Forall (fun b => 1 <= b < 256) t -> strlen t < 2 ^ 64 ->
  exists r, kmp false junk t p = Ret r /\ leftmost p t r.
Proof.
  intros Hne Hp Hpl Ht Htl.
  destruct (kmp_spec false junk p t Hne) as (dfa & r & _ & _ & _ & Ek & Hr);
    [by apply bytes_symbols_unsigned..|].
  by exists r.
Qed.

Lemma kmp_unsigned_char_witness :
  [200; 128] <> [] /\
  Forall (fun b => 1 <= b < 256) [200; 128] /\
  strlen [200; 128] < 2 ^ 64 /\
  Forall (fun b => 1 <= b < 256) [128; 200; 128; 255] /\
  strlen [128; 200; 128; 255] < 2 ^ 64 /\
  exists r,
    kmp false (fun _ _ => 7) [128; 200; 128; 255] [200; 128] = Ret r /\
    leftmost [200; 128] [128; 200; 128; 255] r.
Proof.
  assert (Forall (fun b => 1 <= b < 256) [200; 128]) as H1
    by (repeat constructor; lia).
  assert (Forall (fun b => 1 <= b < 256) [128; 200; 128; 255]) as H2
    by (repeat constructor; lia).
  split; [discriminate|]. split; [exact H1|]. split; [unfold strlen; simpl; lia|].
  split; [exact H2|]. split; [unfold strlen; simpl; lia|].
  apply kmp_unsigned_char; [discriminate | exact H1 | unfold strlen; simpl; lia
                            | exact H2 | unfold strlen; simpl; lia].
Defined.


(** ** Bytes from 128 on where [char] is signed *)

Lemma signed_index_high b :
  128 <= b < 256 -> index_of true b = 2 ^ 64 - 256 + b.
Proof.
  intros Hb. unfold index_of, char_value, wrap. simpl.
  replace (128 <=? b) with true by lia.
  replace (b - 256) with (2 ^ 64 - 256 + b + (-1) * 2 ^ 64) by lia.
  rewrite Z_mod_plus_full. apply Z.mod_small. lia.
Qed.

Lemma for_loop_app {S : Type} body n1 n2 i (s : S) :
  for_loop (n1 + n2) i body s
  = (s' <- for_loop n1 i body s ;; for_loop n2 (i + Z.of_nat n1) body s').
Proof.
  revert i s. induction n1 as [|n1 IH]; intros i s; simpl.
  - by rewrite Z.add_0_r.
  - destruct (body i s); simpl; [|done]. rewrite IH. do 2 f_equal. lia.
Qed.

(** A loop whose iterations keep an invariant up to iteration [k], which
    faults, faults as that iteration does. *)
Lemma for_range_fault {S : Type} (I : Z -> S -> Prop) body lo hi k (s : S) f :
  lo <= k < hi -> I lo s ->
  (forall i s, lo <= i < k -> I i s ->
               exists s', body i s = Ret s' /\ I (i + 1) s') ->
  (forall s, I k s -> body k s = UB f) ->
  for_range lo hi body s = UB f.
Proof.
  intros Hk Hi Hstep Hfault. unfold for_range.
  replace (Z.to_nat (hi - lo))
    with (Z.to_nat (k - lo) + Datatypes.S (Z.to_nat (hi - k - 1)))%nat by lia.
  rewrite for_loop_app.
  destruct (for_loop_inv I body (Z.to_nat (k - lo)) lo s) as (s' & E & H);
    [done| |].
  - intros i s' Hi'. apply Hstep. lia.
  - rewrite E. simpl.
    replace (lo + Z.of_nat (Z.to_nat (k - lo))) with k in * by lia.
    by rewrite (Hfault s' H).
Qed.

Section HighBytes.

Variable junk : Z -> Z -> Z.

(** The iteration of the construction loop for a column whose symbol has a
    row, the other symbols of the pattern being any. *)
Lemma build_step_at char_signed p j st :
  1 <= j < strlen p -> strlen p < 2 ^ 64 ->
  symbol char_signed (char_at p j) = true ->
  built junk p j st ->
  exists st',
    build_step char_signed junk p j st = Ret st' /\
    built junk p (j + 1) st'.
Proof.
  intros Hj Hlen Hsym (Hcols & Hst & Hd & H00 & H0).
  destruct st as [t state]. simpl in *.
  pose proof (restart_bound p j ltac:(lia)) as Hr. rewrite <- Hst in Hr.
  destruct (symbol_index char_signed (char_at p j) Hsym) as [Hx Hxr].
  destruct (copy_column_spec junk state j t) as (t1 & E1 & Hc1 & H1);
    [lia..|].
  unfold build_step. rewrite E1. simpl.
  rewrite Hx, store_inside by lia. simpl.
  rewrite load_inside by (simpl; lia). simpl.
  eexists. split; [done|].
  assert (forall c, 1 <= c < RADIX ->
            default (junk c state) (cells t !! (c, state))
            = delta p (restart p j) c) as Hpeek.
  { intros c Hc. rewrite Hd by lia. simpl. by rewrite Hst. }
  repeat split; simpl.
  - lia.
  - rewrite restart_succ by lia. unfold peek. simpl.
    rewrite lookup_insert, H1. cell_cases. by apply Hpeek.
  - intros c s Hc Hs. rewrite lookup_insert, H1. unfold peek.
    case_decide as E.
    + simplify_eq. rewrite delta_match, wrap_small; [done|lia|lia].
    + apply cell_neq in E. case_decide as E'.
      * destruct E' as [_ ->]. rewrite Hpeek by done.
        rewrite <- delta_mismatch; [done|lia|]. intros ->. lia.
      * apply Hd; lia.
  - rewrite lookup_insert, H1. cell_cases.
  - intros s Hs. rewrite lookup_insert, H1. unfold peek.
    assert (default (junk 0 state) (cells t !! (0, state)) = junk 0 0)
      as Hrow0.
    { destruct (decide (state = 0)) as [->|Hne];
        [by rewrite H00 | by rewrite H0 by lia]. }
    cell_cases; first [by rewrite Hrow0 | apply H0; lia].
Qed.

(** The iteration for a column whose symbol is a byte from 128 on: the
    copy of lines 54-56 is made and the store of line 59 is outside the
    table. *)
Lemma build_step_high p j st :
  1 <= j < strlen p ->
  128 <= char_at p j < 256 ->
  built junk p j st ->
  build_step true junk p j st
  = UB (StoreOutside (2 ^ 64 - 256 + char_at p j) j).
Proof.
  intros Hj Hb (Hcols & Hst & _).
  destruct st as [t state]. simpl in *.
  pose proof (restart_bound p j ltac:(lia)) as Hr. rewrite <- Hst in Hr.
  destruct (copy_column_spec junk state j t) as (t1 & E1 & Hc1 & H1);
    [lia..|].
  unfold build_step. rewrite E1. simpl.
  rewrite signed_index_high by done. unfold store.
  destruct (inside t1 _ j) eqn:Hin; [|done].
  apply inside_true in Hin. unfold RADIX in Hin. lia.
Qed.

Lemma char_at_middle (w rest : list Z) b : char_at (w ++ b :: rest) (strlen w) = b.
Proof.
  replace (strlen w) with (strlen w + 0) by lia.
  by rewrite char_at_app_r.
Qed.

Lemma symbols_prefix_char_at char_signed (w rest : list Z) j :
  symbols char_signed w = true -> 0 <= j < strlen w ->
  symbol char_signed (char_at (w ++ rest) j) = true.
Proof.
  intros Hw Hj. rewrite char_at_app_l by done. by apply symbols_char_at.
Qed.

(** The construction on a pattern whose first byte from 128 on is [b],
    after the bytes [w]. *)
Lemma build_faults_at_high_byte w b rest :
  symbols true w = true ->
  128 <= b < 256 ->
  strlen (w ++ b :: rest) < 2 ^ 64 ->
  build true junk (w ++ b :: rest)
  = UB (StoreOutside (2 ^ 64 - 256 + b) (strlen w)).
Proof.
  intros Hw Hb Hlen. set (p := w ++ b :: rest) in *.
  assert (strlen p = strlen w + 1 + strlen rest) as Hp.
  { unfold p, strlen. rewrite length_app. simpl. lia. }
  assert (0 <= strlen w /\ 0 <= strlen rest) as [Hw0 Hr0]
    by (unfold strlen; lia).
  assert (char_at p (strlen w) = b) as Hpb by apply char_at_middle.
  unfold build, build_state.
  destruct (decide (strlen w = 0)) as [E0|Hpos].
  - (* the pattern starts with the byte *)
    unfold init_column0.
    destruct (for_range_inv (fun _ t' => cols t' = strlen p)
                (fun i dfa => store dfa i 0 0) 1 RADIX (Table (strlen p) ∅))
      as (t1 & E1 & Hc1); [unfold RADIX; lia|done| |].
    + intros k t' Hk Hc'. rewrite store_inside by lia. by eexists.
    + rewrite E1. simpl. rewrite E0 in *.
      rewrite Hpb, signed_index_high by done.
      unfold store. destruct (inside t1 _ 0) eqn:Hin; [|done].
      apply inside_true in Hin. unfold RADIX in Hin. lia.
  - destruct (init_column0_spec true p (Table (strlen p) ∅))
      as (t0 & E0 & Hc0 & H0); [done|simpl; lia| |].
    { apply symbols_prefix_char_at; [done|lia]. }
    rewrite E0. simpl. unfold build_from.
    rewrite (for_range_fault (built junk p) _ 1 (strlen p) (strlen w) _
               (StoreOutside (2 ^ 64 - 256 + b) (strlen w))); [done|lia| | |].
    + repeat split; simpl.
      * done.
      * by rewrite restart_1.
      * intros c s Hcr Hs. rewrite H0. assert (s = 0) as -> by lia.
        rewrite delta_0 by lia. cell_cases.
      * rewrite H0. cell_cases.
      * intros s Hs. lia.
    + intros i s Hi Hs. apply build_step_at; [lia|done| |done].
      apply symbols_prefix_char_at; [done|lia].
    + intros s Hs. rewrite <- Hpb at 1. apply build_step_high; [lia| |done].
      by rewrite Hpb.
Qed.

End HighBytes.

(** Where [char] is signed, a pattern with a byte from 128 on makes the
    construction store outside the table, at the column of the first such
    byte, whatever follows it in the pattern. *)
Theorem build_signed_high_byte junk w b rest :
  symbols true w = true ->
  128 <= b < 256 ->
  strlen (w ++ b :: rest) < 2 ^ 64 ->
  build true junk (w ++ b :: rest)
  = UB (StoreOutside (2 ^ 64 - 256 + b) (strlen w)).
Proof. intros Hw Hb Hlen. by apply build_faults_at_high_byte. Qed.

Lemma build_signed_high_byte_witness :
  symbols true (cstr "ab") = true /\
  128 <= 200 < 256 /\
  strlen (cstr "ab" ++ 200 :: [0; 300]) < 2 ^ 64 /\
  build true (fun _ _ => 7) (cstr "ab" ++ 200 :: [0; 300])
  = UB (StoreOutside (2 ^ 64 - 256 + 200) (strlen (cstr "ab"))).
Proof.
  split; [reflexivity|]. split; [lia|]. split; [reflexivity|].
  apply (build_signed_high_byte (fun _ _ => 7) (cstr "ab") 200 [0; 300]);
    [reflexivity | lia | reflexivity].
Defined.

Section HighText.

Variable char_signed : bool.
Variable junk : Z -> Z -> Z.
Variable p : list Z.
Variable dfa : table.
Hypothesis Hm : 1 <= strlen p.
Hypothesis Hdfa : recognises p dfa.

(** The scan of a stretch of text in which the pattern does not come to an
    end goes through it and is then in the automaton's state. *)
Lemma run_prefix w :
  Forall (fun b => symbol char_signed b = true) w ->
  forall w0 rest,
    (forall n, (n <= length w)%nat ->
               (sigma p (w0 ++ take n w) < length p)%nat) ->
    run char_signed junk dfa (strlen p) (w ++ rest) (strlen w0)
        (Z.of_nat (sigma p w0))
    = run char_signed junk dfa (strlen p) rest (strlen (w0 ++ w))
          (Z.of_nat (sigma p (w0 ++ w))).
Proof.
  induction 1 as [|c w Hc Hw IH]; intros w0 rest Hq.
  - by rewrite app_nil_r.
  - simpl. rewrite (load_sigma char_signed junk p dfa Hdfa).
    + simpl. pose proof (Hq 1%nat ltac:(simpl; lia)) as H1.
      simpl in H1. rewrite take_0 in H1.
      replace (strlen p <=? Z.of_nat (sigma p (w0 ++ [c]))) with false
        by (unfold strlen; lia).
      replace (strlen w0 + 1) with (strlen (w0 ++ [c]))
        by (unfold strlen; rewrite length_app; simpl; lia).
      rewrite IH.
      * by rewrite <- !app_assoc.
      * intros n Hn. rewrite <- app_assoc. simpl.
        apply (Hq (Datatypes.S n)). simpl. lia.
    + done.
    + specialize (Hq O ltac:(lia)). by rewrite take_0, app_nil_r in Hq.
Qed.

End HighText.

Lemma no_occurrence_quiet p w :
  (forall o, ~ occurs_at p w o) ->
  forall n, (n <= length w)%nat -> (sigma p (take n w) < length p)%nat.
Proof.
  intros Hno n Hn. pose proof (sigma_le p (take n w)) as Hle.
  destruct (decide (sigma p (take n w) = length p)) as [E|]; [|lia].
  exfalso. pose proof (sigma_length p (take n w)) as Hl.
  rewrite length_take in Hl.
  apply (Hno (Z.of_nat n - strlen p)). apply occurs_at_take.
  unfold strlen. split; [lia|]. split; [lia|].
  replace (Z.to_nat (Z.of_nat n - Z.of_nat (length p) + Z.of_nat (length p)))
    with n by lia.
  by apply sigma_accept.
Qed.

(** The scan of a text whose first byte from 128 on is [b], after the
    bytes [w] in which the pattern does not occur. *)
Lemma kmp_faults_at_high_byte junk p w b rest :
  p <> [] ->
  symbols true p = true ->
  symbols true w = true ->
  (forall o, ~ occurs_at p w o) ->
  128 <= b < 256 ->
  (sigma p w < length p)%nat /\
  kmp true junk (w ++ b :: rest) p
  = UB (LoadOutside (2 ^ 64 - 256 + b) (Z.of_nat (sigma p w))).
Proof.
  intros Hne Hp Hw Hno Hb.
  destruct (build_recognises true junk p Hne Hp) as (dfa & E & Hrec & _).
  pose proof (nonempty_strlen p Hne) as Hm.
  pose proof (no_occurrence_quiet p w Hno) as Hq.
  destruct (symbols_inv _ _ Hw) as [Hsym _].
  split.
  - specialize (Hq (length w) ltac:(lia)). by rewrite firstn_all in Hq.
  - unfold kmp. rewrite E. simpl. unfold scan.
    destruct Hrec as [Hcols Hcells]. rewrite Hcols.
    change 0 with (strlen []) at 1.
    replace 0 with (Z.of_nat (sigma p [])) by (by rewrite sigma_nil).
    rewrite (run_prefix true junk p dfa (conj Hcols Hcells) w Hsym [] (b :: rest));
      [|done].
    simpl. rewrite signed_index_high by done. unfold load.
    destruct (inside dfa _ _) eqn:Hin; [|done].
    apply inside_true in Hin. unfold RADIX in Hin. lia.
Qed.

(** Where [char] is signed, the scan of a text loads from outside the
    table at the first byte from 128 on, unless the pattern has occurred
    before that byte. *)
Theorem kmp_signed_high_byte_in_text junk p w b rest :
  p <> [] ->
  symbols true p = true ->
  symbols true w = true ->
  (forall o, ~ occurs_at p w o) ->
  128 <= b < 256 ->
  exists state,
    0 <= state < strlen p /\
    kmp true junk (w ++ b :: rest) p
    = UB (LoadOutside (2 ^ 64 - 256 + b) state).
Proof.
  intros Hne Hp Hw Hno Hb.
  destruct (kmp_faults_at_high_byte junk p w b rest Hne Hp Hw Hno Hb)
    as [Hst E].
  exists (Z.of_nat (sigma p w)). split; [unfold strlen; lia | done].
Qed.

Lemma kmp_signed_high_byte_in_text_witness :
  cstr "ab" <> [] /\
  symbols true (cstr "ab") = true /\
  symbols true (cstr "x") = true /\
  (forall o, ~ occurs_at (cstr "ab") (cstr "x") o) /\
  128 <= 233 < 256 /\
  exists state,
    0 <= state < strlen (cstr "ab") /\
    kmp true (fun _ _ => 7) (cstr "x" ++ 233 :: cstr "ab") (cstr "ab")
    = UB (LoadOutside (2 ^ 64 - 256 + 233) state).
Proof.
  assert (forall o, ~ occurs_at (cstr "ab") (cstr "x") o) as Hno.
  { intros o H. apply occurs_at_chars in H as (H0 & H1 & _).
    unfold strlen in *. simpl in *. lia. }
  split; [discriminate|]. split; [reflexivity|]. split; [reflexivity|].
  split; [exact Hno|]. split; [lia|].
  apply kmp_signed_high_byte_in_text;
    [discriminate | reflexivity | reflexivity | exact Hno | lia].
Defined.

(** ** C strings, whatever the signedness of [char] *)













(** * The claims and bytes from 128 on *)

(** C1 at the text "x", byte 233, "ab" and the pattern "ab", where [char]
    is signed: the pattern occurs at offset 2, and the scan, reaching the
    byte 233 in state 0, loads from row 2^64 - 23 of the table, outside of
    it, instead of returning that offset. *)
Theorem leftmost_missed_after_high_byte junk :
  occurs_at (cstr "ab") (cstr "x" ++ 233 :: cstr "ab") 2 /\
  kmp true junk (cstr "x" ++ 233 :: cstr "ab") (cstr "ab")
  = UB (LoadOutside (2 ^ 64 - 23) 0).
Proof.
  split; [by exists (cstr "x" ++ [233]), []|]. vm_compute. reflexivity.
Qed.

(** C6 at the non-empty pattern made of the byte 128, where [char] is
    signed: the search of the empty text does not return [NULL]; the
    construction stores outside the table at line 49. *)
Theorem empty_text_high_byte_pattern junk :
  kmp true junk [] [128] = UB (StoreOutside (2 ^ 64 - 128) 0).
Proof. vm_compute. reflexivity. Qed.

(** C7 at the non-empty pattern made of the bytes 97 and 200, where [char]
    is signed: the search of the pattern for itself does not return offset
    0; the construction stores outside the table at line 59, in column
    1. *)
Theorem self_match_high_byte_pattern junk :
  kmp true junk [97; 200] [97; 200] = UB (StoreOutside (2 ^ 64 - 56) 1).
Proof. vm_compute. reflexivity. Qed.



(** * The program around the search *)

(** ** The C library *)

Lemma iobind_done {A B} (m : io A) (k : A -> io B) w a w' :
  m w = Done a w' -> iobind m k w = k a w'.
Proof. intros E. unfold iobind. by rewrite E. Qed.

Lemma iobind_stop {A B} (m : io A) (k : A -> io B) w s w' :
  m w = Stop s w' -> iobind m k w = Stop s w'.
Proof. intros E. unfold iobind. by rewrite E. Qed.


Lemma to_int_small z : 0 <= z < 2 ^ 31 -> to_int z = z.
Proof.
  intros Hz. unfold to_int. rewrite Z.mod_small; lia.
Qed.

Lemma inline_inv line :
  forallb inline line = true -> Forall (fun b => b <> 0 /\ b <> 10) line.
Proof.
  rewrite forallb_forall. intros H. apply Forall_forall. intros b Hb.
  apply list_elem_of_In, H in Hb. unfold inline in Hb.
  rewrite !andb_true_iff in Hb. lia.
Qed.

Lemma inline_byte line :
  forallb inline line = true -> Forall (fun b => 0 <= b < 256) line.
Proof.
  rewrite forallb_forall. intros H. apply Forall_forall. intros b Hb.
  apply list_elem_of_In, H in Hb. unfold inline in Hb.
  rewrite !andb_true_iff in Hb. lia.
Qed.

Lemma read_line_length n s : (length (read_line n s).1 <= n)%nat.
Proof.
  revert s. induction n as [|n IH]; intros s; simpl; [lia|].
  destruct s as [|b s]; simpl; [lia|].
  destruct (b =? 10); simpl; [lia|].
  specialize (IH s). destruct (read_line n s). simpl in *. lia.
Qed.

Lemma read_line_newline n line rest :
  Forall (fun b => b <> 0 /\ b <> 10) line ->
  (length line < n)%nat ->
  read_line n (line ++ 10 :: rest) = (line ++ [10], rest).
Proof.
  intros Hline. revert n. induction Hline as [|b line [_ Hb] _ IH];
    intros n Hn; (destruct n as [|n]; [simpl in Hn; lia|]); simpl.
  - done.
  - replace (b =? 10) with false by lia.
    rewrite IH by (simpl in Hn; lia). done.
Qed.

Lemma read_line_full chunk tail :
  Forall (fun b => b <> 0 /\ b <> 10) chunk ->
  read_line (length chunk) (chunk ++ tail) = (chunk, tail).
Proof.
  induction 1 as [|b chunk [_ Hb] _ IH]; simpl; [done|].
  replace (b =? 10) with false by lia. by rewrite IH.
Qed.

Lemma until_nul_app l x :
  Forall (fun b => b <> 0) l -> until_nul (l ++ 0 :: x) = Some l.
Proof.
  induction 1 as [|b l Hb _ IH]; simpl; [done|].
  replace (b =? 0) with false by lia. by rewrite IH.
Qed.

Lemma inline_not_nul line :
  Forall (fun b => b <> 0 /\ b <> 10) line -> Forall (fun b => b <> 0) line.
Proof. intros H. eapply Forall_impl; [done|]. by intros b [Hb _]. Qed.

Lemma in_range_true i n : 0 <= i < n -> (0 <=? i) && (i <? n) = true.
Proof. intros H. apply andb_true_iff. lia. Qed.

Lemma in_range_false i n : ~ 0 <= i < n -> (0 <=? i) && (i <? n) = false.
Proof. intros H. apply andb_false_iff. lia. Qed.

Lemma nth_middle_Z (l l' : list Z) b : nth (length l) (l ++ b :: l') 0 = b.
Proof. by rewrite nth_middle. Qed.

Lemma array_load_middle (l l' : list Z) b :
  array_load (l ++ b :: l') (strlen l) = ret b.
Proof.
  unfold array_load, strlen.
  rewrite in_range_true by (rewrite length_app; simpl; lia).
  by rewrite Nat2Z.id, nth_middle_Z.
Qed.

Lemma array_store_middle (l l' : list Z) b v :
  array_store (l ++ b :: l') (strlen l) v = ret (l ++ v :: l').
Proof.
  unfold array_store, strlen.
  rewrite in_range_true by (rewrite length_app; simpl; lia).
  rewrite Nat2Z.id. f_equal.
  replace (length l) with (length l + 0)%nat at 1 by lia.
  by rewrite insert_app_r.
Qed.

Lemma fgets_some buffer n f w l r :
  2 <= n ->
  read_line (Z.to_nat (n - 1)) (stream_of f w) = (l, r) ->
  l <> [] -> (length l + 1 <= length buffer)%nat ->
  fgets buffer n f w
  = Done (Some (l ++ 0 :: drop (length l + 1) buffer)) (set_stream f r w).
Proof.
  intros Hn E Hl Hlen. unfold fgets.
  replace (n <=? 0) with false by lia. replace (n =? 1) with false by lia.
  rewrite E.
  apply Nat.leb_le in Hlen. rewrite Hlen.
  destruct l; [done|]. done.
Qed.

(** [fgets] on a line that fits: the line and its newline are taken from
    the stream and stored. *)
Lemma fgets_line buffer n f w line rest :
  stream_of f w = line ++ 10 :: rest ->
  Forall (fun b => b <> 0 /\ b <> 10) line ->
  strlen line + 2 <= n -> n <= strlen buffer ->
  fgets buffer n f w
  = Done (Some (line ++ 10 :: 0 :: drop (length line + 2) buffer))
         (set_stream f rest w).
Proof.
  intros Hs Hline Hn Hbuf. unfold strlen in *.
  rewrite (fgets_some buffer n f w (line ++ [10]) rest).
  2: lia.
  - rewrite length_app, <- app_assoc. simpl.
    by replace (length line + 1 + 1)%nat with (length line + 2)%nat by lia.
  - rewrite Hs. apply read_line_newline; [done|lia].
  - by destruct line.
  - rewrite length_app. simpl. lia.
Qed.

(** [fgets] on a line that does not fit: the buffer is filled. *)
Lemma fgets_chunk buffer n f w chunk tail :
  stream_of f w = chunk ++ tail ->
  Forall (fun b => b <> 0 /\ b <> 10) chunk ->
  chunk <> [] ->
  strlen chunk = n - 1 -> n <= strlen buffer ->
  fgets buffer n f w
  = Done (Some (chunk ++ 0 :: drop (length chunk + 1) buffer))
         (set_stream f tail w).
Proof.
  intros Hs Hchunk Hne Hn Hbuf. unfold strlen in *.
  assert (2 <= n) as Hn2 by (destruct chunk; [done|simpl in Hn; lia]).
  apply fgets_some; [done| |done|lia].
  rewrite Hs. replace (Z.to_nat (n - 1)) with (length chunk) by lia.
  by apply read_line_full.
Qed.

(** ** [readline] *)

Lemma char_value_newline char_signed : char_value char_signed 10 = 10.
Proof. by destruct char_signed. Qed.

Lemma char_value_inline char_signed b :
  0 <= b < 256 -> b <> 10 -> (char_value char_signed b =? 10) = false.
Proof.
  intros Hb Hn. unfold char_value.
  destruct (char_signed && (128 <=? b)) eqn:E; [|lia].
  apply andb_true_iff in E. lia.
Qed.

(** The run of [readline] on a line that fits. *)
Lemma readline_stores_line char_signed fuel f buffer maxlen w line rest :
  stream_of f w = line ++ 10 :: rest ->
  Forall (fun b => b <> 0 /\ b <> 10) line ->
  strlen line + 2 <= maxlen -> maxlen <= strlen buffer -> maxlen < 2 ^ 31 ->
  readline char_signed fuel f buffer maxlen w
  = Done (strlen line, line ++ 0 :: 0 :: drop (length line + 2) buffer)
         (set_stream f rest w).
Proof.
  intros Hs Hline Hfit Hbuf Hint.
  assert (0 <= strlen line) as H0 by (unfold strlen; lia).
  unfold readline, iobind. rewrite to_int_small by lia.
  rewrite (fgets_line buffer maxlen f w line rest) by done.
  unfold c_string.
  replace (line ++ 10 :: 0 :: drop (length line + 2) buffer)
    with ((line ++ [10]) ++ 0 :: drop (length line + 2) buffer)
    by (by rewrite <- app_assoc).
  rewrite until_nul_app.
  2:{ apply Forall_app. split; [by apply inline_not_nul|].
      by repeat constructor. }
  unfold ret at 1.
  replace (wrap (strlen (line ++ [10]) - 1)) with (strlen line).
  2:{ unfold strlen. rewrite length_app. simpl.
      rewrite wrap_small; unfold strlen in *; lia. }
  rewrite <- app_assoc. simpl.
  rewrite array_load_middle. unfold ret at 1.
  rewrite char_value_newline. simpl.
  rewrite array_store_middle. unfold ret.
  rewrite to_int_small by lia. done.
Qed.

(** A line that fits in the buffer is stored without its newline and its
    length is returned; the stream is left after the newline and nothing
    else is read. *)
Theorem readline_line char_signed fuel f buffer maxlen w line rest :
  stream_of f w = line ++ 10 :: rest ->
  forallb inline line = true ->
  strlen line + 2 <= maxlen -> maxlen <= strlen buffer -> maxlen < 2 ^ 31 ->
  readline char_signed fuel f buffer maxlen w
  = Done (strlen line, line ++ 0 :: 0 :: drop (length line + 2) buffer)
         (set_stream f rest w) /\
  until_nul (line ++ 0 :: 0 :: drop (length line + 2) buffer) = Some line.
Proof.
  intros Hs Hline Hfit Hbuf Hint. apply inline_inv in Hline. split.
  - by apply readline_stores_line.
  - by apply until_nul_app, inline_not_nul.
Qed.

Lemma readline_line_witness :
  stream_of Stdin (World (cstr "ab" ++ 10 :: cstr "cd") [] [])
  = cstr "ab" ++ 10 :: cstr "cd" /\
  forallb inline (cstr "ab") = true /\
  strlen (cstr "ab") + 2 <= 4 /\ 4 <= strlen [7; 7; 7; 7; 7] /\
  4 < 2 ^ 31 /\
  readline true O Stdin [7; 7; 7; 7; 7] 4
    (World (cstr "ab" ++ 10 :: cstr "cd") [] [])
  = Done (strlen (cstr "ab"),
          cstr "ab" ++ 0 :: 0 :: drop (length (cstr "ab") + 2) [7; 7; 7; 7; 7])
         (set_stream Stdin (cstr "cd")
            (World (cstr "ab" ++ 10 :: cstr "cd") [] [])) /\
  until_nul (cstr "ab" ++ 0 :: 0
             :: drop (length (cstr "ab") + 2) [7; 7; 7; 7; 7])
  = Some (cstr "ab").
Proof.
  split; [reflexivity|]. split; [reflexivity|].
  split; [unfold strlen; simpl; lia|]. split; [unfold strlen; simpl; lia|].
  split; [reflexivity|].
  apply readline_line;
    [reflexivity | reflexivity | unfold strlen; simpl; lia
     | unfold strlen; simpl; lia | reflexivity].
Defined.

Lemma fgets_at_eof buffer n f w :
  2 <= n -> stream_of f w = [] -> fgets buffer n f w = Done None w.
Proof.
  intros Hn Hs. unfold fgets.
  replace (n <=? 0) with false by lia. replace (n =? 1) with false by lia.
  rewrite Hs. by destruct (Z.to_nat (n - 1)).
Qed.

(** At the end of the stream [readline], asked for a line in a buffer of
    two bytes or more, returns 0 and leaves the buffer as it was: no
    string is stored in it. *)
Theorem readline_at_eof char_signed fuel f buffer maxlen w :
  stream_of f w = [] ->
  2 <= maxlen -> maxlen < 2 ^ 31 ->
  readline char_signed fuel f buffer maxlen w = Done (0, buffer) w.
Proof.
  intros Hs Hmax Hint. unfold readline. rewrite to_int_small by lia.
  by rewrite (iobind_done _ _ _ _ _ (fgets_at_eof buffer _ f w Hmax Hs)).
Qed.

Lemma readline_at_eof_witness :
  stream_of Stdin (World [] (cstr "x") []) = [] /\
  2 <= 2 /\ 2 < 2 ^ 31 /\
  readline true O Stdin [7; 7] 2 (World [] (cstr "x") [])
  = Done (0, [7; 7]) (World [] (cstr "x") []).
Proof.
  split; [reflexivity|]. split; [lia|]. split; [reflexivity|].
  apply readline_at_eof; [reflexivity | lia | reflexivity].
Defined.

Lemma to_char_byte char_signed b :
  0 <= b < 256 -> to_char char_signed b = char_value char_signed b.
Proof. intros Hb. unfold to_char. by rewrite Z.mod_small. Qed.

(** The loop of lines 25-27 goes on after a byte that is neither the
    newline nor, as a [char], [EOF]. *)
Lemma drained_goes_on char_signed b :
  drained char_signed b = true ->
  negb (to_char char_signed b =? 10) && negb (to_char char_signed b =? EOF)
  = true.
Proof.
  unfold drained, ends_drain, EOF. rewrite !andb_true_iff, negb_true_iff.
  rewrite orb_false_iff. intros [[H0 H1] [Hn He]].
  rewrite to_char_byte by lia. unfold char_value.
  destruct char_signed; simpl in *.
  - destruct (128 <=? b) eqn:E; rewrite !negb_true_iff; lia.
  - rewrite !negb_true_iff. lia.
Qed.

Lemma ends_drain_stops char_signed b :
  ends_drain char_signed b = true ->
  negb (to_char char_signed b =? 10) && negb (to_char char_signed b =? EOF)
  = false.
Proof.
  unfold ends_drain. rewrite orb_true_iff, andb_true_iff.
  intros [H|[-> H]].
  - assert (b = 10) as -> by lia. unfold to_char.
    change (10 mod 256) with 10. by rewrite char_value_newline.
  - assert (b = 255) as -> by lia. reflexivity.
Qed.

(** The loop of lines 25-27 reads the standard input up to and including
    the first byte that ends it. *)
Lemma drain_stops char_signed more b rest :
  forallb (drained char_signed) more = true ->
  ends_drain char_signed b = true ->
  forall fuel w,
    stdin w = more ++ b :: rest ->
    (length more < fuel)%nat ->
    drain char_signed fuel w = Done tt (set_stream Stdin rest w).
Proof.
  intros Hmore Hb. induction more as [|x more IH]; intros fuel w Hw Hfuel;
    (destruct fuel as [|fuel]; [simpl in Hfuel; lia|]).
  - simpl. unfold iobind, getchar. rewrite Hw. simpl.
    by rewrite ends_drain_stops.
  - simpl in Hmore. apply andb_true_iff in Hmore as [Hx Hmore].
    simpl. unfold iobind, getchar. rewrite Hw. simpl.
    rewrite drained_goes_on by done.
    rewrite (IH Hmore fuel) by (simpl in *; done || lia). done.
Qed.

(** Where [char] is unsigned, the loop of lines 25-27 does not end once the
    standard input has no newline left: at the end of the input [getchar]
    gives [EOF], which as an unsigned [char] is 255 and not [EOF]. *)
Lemma drain_unsigned_never_ends more :
  forallb (drained false) more = true ->
  forall fuel w,
    stdin w = more ->
    exists w', drain false fuel w = Stop OutOfFuel w'.
Proof.
  intros Hmore fuel. revert more Hmore.
  induction fuel as [|fuel IH]; intros more Hmore w Hw.
  - by exists w.
  - simpl. unfold iobind, getchar. rewrite Hw.
    destruct more as [|x more]; simpl.
    + apply (IH []); done.
    + simpl in Hmore. apply andb_true_iff in Hmore as [Hx Hmore].
      rewrite drained_goes_on by done. by apply (IH more).
Qed.

(** A line that does not fit, in general: the buffer is filled from the
    stream, and the standard input is read up to the first byte that ends
    the loop of lines 25-27. *)
Lemma readline_long char_signed fuel f buffer maxlen w chunk tail more b rest :
  stream_of f w = chunk ++ tail ->
  forallb inline chunk = true ->
  strlen chunk = maxlen - 1 ->
  2 <= maxlen -> maxlen <= strlen buffer -> maxlen < 2 ^ 31 ->
  stdin (set_stream f tail w) = more ++ b :: rest ->
  forallb (drained char_signed) more = true ->
  ends_drain char_signed b = true ->
  (length more < fuel)%nat ->
  readline char_signed fuel f buffer maxlen w
  = Done (maxlen - 1, chunk ++ 0 :: drop (length chunk + 1) buffer)
         (set_stream Stdin rest (set_stream f tail w)).
Proof.
  intros Hs Hchunk Hlen Hmax Hbuf Hint Hin Hmore Hb Hfuel.
  pose proof (inline_byte _ Hchunk) as Hbytes.
  apply inline_inv in Hchunk.
  assert (chunk <> []) as Hne
    by (intros ->; unfold strlen in Hlen; simpl in Hlen; lia).
  unfold readline, iobind. rewrite to_int_small by lia.
  rewrite (fgets_chunk buffer maxlen f w chunk tail) by done.
  unfold c_string. rewrite until_nul_app by (by apply inline_not_nul).
  unfold ret at 1. rewrite Hlen.
  destruct (exists_last Hne) as (front & z & ->).
  assert (0 <= z < 256 /\ z <> 10 /\ strlen front = maxlen - 2)
    as (Hz0 & Hz10 & Hf).
  { apply Forall_app in Hchunk as [_ Hz]. inversion Hz; subst.
    apply Forall_app in Hbytes as [_ Hz']. inversion Hz'; subst.
    unfold strlen in *. rewrite length_app in Hlen. simpl in Hlen. lia. }
  rewrite wrap_small by lia.
  replace (maxlen - 1 - 1) with (strlen front) by lia.
  rewrite <- app_assoc. simpl. rewrite array_load_middle. unfold ret at 1.
  rewrite char_value_inline by done.
  simpl. rewrite (drain_stops char_signed more b rest Hmore Hb) by done.
  unfold ret. rewrite to_int_small by lia. done.
Qed.

(** A line of the standard input that does not fit: the buffer takes its
    first [maxlen - 1] bytes, and the rest of the standard input is
    discarded up to and including the first newline or, where [char] is
    signed, the first byte 255 if it comes before. *)
Theorem readline_truncates char_signed fuel buffer maxlen w chunk more b rest :
  stdin w = chunk ++ more ++ b :: rest ->
  forallb inline chunk = true ->
  strlen chunk = maxlen - 1 ->
  2 <= maxlen -> maxlen <= strlen buffer -> maxlen < 2 ^ 31 ->
  forallb (drained char_signed) more = true ->
  ends_drain char_signed b = true ->
  (length more < fuel)%nat ->
  readline char_signed fuel Stdin buffer maxlen w
  = Done (maxlen - 1, chunk ++ 0 :: drop (length chunk + 1) buffer)
         (World rest (other w) (stdout w)).
Proof.
  intros Hs Hchunk Hlen Hmax Hbuf Hint Hmore Hb Hfuel.
  by rewrite (readline_long char_signed fuel Stdin buffer maxlen w chunk
                (more ++ b :: rest) more b rest).
Qed.

Lemma readline_truncates_witness :
  stdin (World (cstr "abc" ++ cstr "de" ++ 255 :: cstr "fg") [] [])
  = cstr "abc" ++ cstr "de" ++ 255 :: cstr "fg" /\
  forallb inline (cstr "abc") = true /\
  strlen (cstr "abc") = 4 - 1 /\
  2 <= 4 /\ 4 <= strlen [7; 7; 7; 7] /\ 4 < 2 ^ 31 /\
  forallb (drained true) (cstr "de") = true /\
  ends_drain true 255 = true /\
  (length (cstr "de") < 3)%nat /\
  readline true 3 Stdin [7; 7; 7; 7] 4
    (World (cstr "abc" ++ cstr "de" ++ 255 :: cstr "fg") [] [])
  = Done (4 - 1, cstr "abc" ++ 0 :: drop (length (cstr "abc") + 1) [7; 7; 7; 7])
         (World (cstr "fg") [] []).
Proof.
  split; [reflexivity|]. split; [reflexivity|]. split; [reflexivity|].
  split; [lia|]. split; [unfold strlen; simpl; lia|]. split; [reflexivity|].
  split; [reflexivity|]. split; [reflexivity|]. split; [simpl; lia|].
  apply (readline_truncates true 3 [7; 7; 7; 7] 4
           (World (cstr "abc" ++ cstr "de" ++ 255 :: cstr "fg") [] [])
           (cstr "abc") (cstr "de") 255 (cstr "fg"));
    [reflexivity | reflexivity | reflexivity | lia
     | unfold strlen; simpl; lia | reflexivity | reflexivity | reflexivity
     | simpl; lia].
Defined.

(** When the stream is not the standard input, what a line that does not
    fit leaves behind stays in the stream, and it is the standard input
    that is read up to its next newline. *)
Theorem readline_drains_stdin char_signed fuel buffer maxlen w
    chunk tail more b rest :
  other w = chunk ++ tail ->
  stdin w = more ++ b :: rest ->
  forallb inline chunk = true ->
  strlen chunk = maxlen - 1 ->
  2 <= maxlen -> maxlen <= strlen buffer -> maxlen < 2 ^ 31 ->
  forallb (drained char_signed) more = true ->
  ends_drain char_signed b = true ->
  (length more < fuel)%nat ->
  readline char_signed fuel Other buffer maxlen w
  = Done (maxlen - 1, chunk ++ 0 :: drop (length chunk + 1) buffer)
         (World rest tail (stdout w)).
Proof.
  intros Ho Hs Hchunk Hlen Hmax Hbuf Hint Hmore Hb Hfuel.
  by rewrite (readline_long char_signed fuel Other buffer maxlen w chunk
                tail more b rest).
Qed.

Lemma readline_drains_stdin_witness :
  other (World (cstr "in" ++ 10 :: cstr "put") (cstr "abc" ++ cstr "de") [])
  = cstr "abc" ++ cstr "de" /\
  stdin (World (cstr "in" ++ 10 :: cstr "put") (cstr "abc" ++ cstr "de") [])
  = cstr "in" ++ 10 :: cstr "put" /\
  forallb inline (cstr "abc") = true /\
  strlen (cstr "abc") = 4 - 1 /\
  2 <= 4 /\ 4 <= strlen [7; 7; 7; 7] /\ 4 < 2 ^ 31 /\
  forallb (drained false) (cstr "in") = true /\
  ends_drain false 10 = true /\
  (length (cstr "in") < 3)%nat /\
  readline false 3 Other [7; 7; 7; 7] 4
    (World (cstr "in" ++ 10 :: cstr "put") (cstr "abc" ++ cstr "de") [])
  = Done (4 - 1, cstr "abc" ++ 0 :: drop (length (cstr "abc") + 1) [7; 7; 7; 7])
         (World (cstr "put") (cstr "de") []).
Proof.
  split; [reflexivity|]. split; [reflexivity|]. split; [reflexivity|].
  split; [reflexivity|].
  split; [lia|]. split; [unfold strlen; simpl; lia|]. split; [reflexivity|].
  split; [reflexivity|]. split; [reflexivity|]. split; [simpl; lia|].
  apply (readline_drains_stdin false 3 [7; 7; 7; 7] 4
           (World (cstr "in" ++ 10 :: cstr "put") (cstr "abc" ++ cstr "de") [])
           (cstr "abc") (cstr "de") (cstr "in") 10 (cstr "put"));
    [reflexivity | reflexivity | reflexivity | reflexivity | lia
     | unfold strlen; simpl; lia | reflexivity | reflexivity | reflexivity
     | simpl; lia].
Defined.

(** Where [char] is unsigned, [readline] does not return from a line that
    does not fit when the standard input ends without a newline: whatever
    the fuel, the loop of lines 25-27 uses it up. *)
Theorem readline_unsigned_never_returns fuel buffer maxlen w chunk more :
  stdin w = chunk ++ more ->
  forallb inline chunk = true ->
  strlen chunk = maxlen - 1 ->
  2 <= maxlen -> maxlen <= strlen buffer -> maxlen < 2 ^ 31 ->
  forallb (drained false) more = true ->
  exists w', readline false fuel Stdin buffer maxlen w = Stop OutOfFuel w'.
Proof.
  intros Hs Hchunk Hlen Hmax Hbuf Hint Hmore.
  pose proof (inline_byte _ Hchunk) as Hbytes.
  apply inline_inv in Hchunk.
  assert (chunk <> []) as Hne
    by (intros ->; unfold strlen in Hlen; simpl in Hlen; lia).
  unfold readline, iobind. rewrite to_int_small by lia.
  rewrite (fgets_chunk buffer maxlen Stdin w chunk more) by done.
  unfold c_string. rewrite until_nul_app by (by apply inline_not_nul).
  unfold ret at 1. rewrite Hlen.
  destruct (exists_last Hne) as (front & z & ->).
  assert (0 <= z < 256 /\ z <> 10 /\ strlen front = maxlen - 2)
    as (Hz0 & Hz10 & Hf).
  { apply Forall_app in Hchunk as [_ Hz]. inversion Hz; subst.
    apply Forall_app in Hbytes as [_ Hz']. inversion Hz'; subst.
    unfold strlen in *. rewrite length_app in Hlen. simpl in Hlen. lia. }
  rewrite wrap_small by lia.
  replace (maxlen - 1 - 1) with (strlen front) by lia.
  rewrite <- app_assoc. simpl. rewrite array_load_middle. unfold ret at 1.
  rewrite char_value_inline by done. simpl.
  destruct (drain_unsigned_never_ends more Hmore fuel
              (World more (other w) (stdout w))) as (w' & E); [done|].
  exists w'. by rewrite E.
Qed.

Lemma readline_unsigned_never_returns_witness :
  stdin (World (cstr "abc" ++ cstr "de") [] []) = cstr "abc" ++ cstr "de" /\
  forallb inline (cstr "abc") = true /\
  strlen (cstr "abc") = 4 - 1 /\
  2 <= 4 /\ 4 <= strlen [7; 7; 7; 7] /\ 4 < 2 ^ 31 /\
  forallb (drained false) (cstr "de") = true /\
  exists w', readline false 1000 Stdin [7; 7; 7; 7] 4
               (World (cstr "abc" ++ cstr "de") [] [])
             = Stop OutOfFuel w'.
Proof.
  split; [reflexivity|]. split; [reflexivity|]. split; [reflexivity|].
  split; [lia|]. split; [unfold strlen; simpl; lia|]. split; [reflexivity|].
  split; [reflexivity|].
  apply (readline_unsigned_never_returns 1000 [7; 7; 7; 7] 4
           (World (cstr "abc" ++ cstr "de") [] []) (cstr "abc") (cstr "de"));
    [reflexivity | reflexivity | reflexivity | lia
     | unfold strlen; simpl; lia | reflexivity | reflexivity].
Defined.

(** A line whose first byte is a NUL: the string [fgets] stored is empty
    and line 23 loads [buffer[length - 1]] with [length] 0, that is the
    byte at index 2^64 - 1. *)
Theorem readline_nul_first char_signed fuel f buffer maxlen w s :
  stream_of f w = 0 :: s ->
  2 <= maxlen -> maxlen <= strlen buffer -> maxlen < 2 ^ 31 ->
  strlen buffer < 2 ^ 63 ->
  exists w',
    readline char_signed fuel f buffer maxlen w
    = Stop (Undefined (Overrun (2 ^ 64 - 1))) w'.
Proof.
  intros Hs Hmax Hbuf Hint Hsize.
  unfold readline, iobind. rewrite to_int_small by lia.
  pose proof (read_line_length (Z.to_nat (maxlen - 1 - 1)) s) as Hl.
  destruct (read_line (Z.to_nat (maxlen - 1 - 1)) s) as [l r] eqn:El.
  rewrite (fgets_some buffer maxlen f w (0 :: l) r).
  2: done.
  - exists (set_stream f r w). simpl.
    unfold array_load. rewrite in_range_false; [done|].
    change (wrap (strlen [] - 1)) with (2 ^ 64 - 1).
    rewrite length_cons, length_app, length_cons, length_drop.
    unfold strlen in *. simpl in Hl. lia.
  - rewrite Hs.
    replace (Z.to_nat (maxlen - 1))
      with (Datatypes.S (Z.to_nat (maxlen - 1 - 1))) by lia.
    simpl. by rewrite El.
  - done.
  - unfold strlen in *. simpl in *. lia.
Qed.

Lemma readline_nul_first_witness :
  stream_of Stdin (World (0 :: cstr "ab" ++ [10]) [] [])
  = 0 :: cstr "ab" ++ [10] /\
  2 <= 8 /\ 8 <= strlen (replicate 8 7) /\ 8 < 2 ^ 31 /\
  strlen (replicate 8 7) < 2 ^ 63 /\
  exists w',
    readline true O Stdin (replicate 8 7) 8
      (World (0 :: cstr "ab" ++ [10]) [] [])
    = Stop (Undefined (Overrun (2 ^ 64 - 1))) w'.
Proof.
  split; [reflexivity|]. split; [lia|]. split; [unfold strlen; simpl; lia|].
  split; [reflexivity|]. split; [reflexivity|].
  apply (readline_nul_first true O Stdin (replicate 8 7) 8
           (World (0 :: cstr "ab" ++ [10]) [] []) (cstr "ab" ++ [10]));
    [reflexivity | lia | unfold strlen; simpl; lia | reflexivity
     | reflexivity].
Defined.

(** ** [test] and [main] *)

Section Test.

Variable char_signed : bool.
Variable junk : Z -> Z -> Z.
Variable stack : Z -> Z.

Lemma stack_buffer_length n : 0 <= n -> strlen (stack <$> seqZ 0 n) = n.
Proof. intros Hn. unfold strlen. rewrite length_fmap, length_seqZ. lia. Qed.

(** The comparisons of lines 110-112 succeed when the bytes from the
    returned pointer on are those of the pattern. *)
Lemma sanity_check_passes text p o w :
  (forall i, 0 <= i < strlen p ->
             0 <= o + i < strlen text /\
             nth (Z.to_nat (o + i)) text 0 = char_at p i) ->
  forall n i,
    0 <= i -> i + Z.of_nat n = strlen p ->
    sanity_check char_signed n i text (Some o) p w = Done tt w.
Proof.
  intros H. induction n as [|n IH]; intros i Hi Hn; [done|].
  destruct (H i ltac:(lia)) as [Hin Hb].
  simpl. erewrite iobind_done.
  2:{ unfold array_load, strlen in *. by rewrite in_range_true by lia. }
  rewrite Hb, Z.eqb_refl. apply IH; lia.
Qed.

Lemma line_in_buffer (line tail : list Z) i :
  0 <= i < strlen line ->
  nth (Z.to_nat i) (line ++ tail) 0 = char_at line i.
Proof. intros Hi. unfold char_at, strlen in *. apply app_nth1. lia. Qed.

(** What [test] does with a line of the standard input that fits in its
    buffer, up to the search of it. *)
Lemma test_reads_line fuel p verbose w line rest r :
  stdin w = line ++ 10 :: rest ->
  forallb inline line = true ->
  strlen line <= 4094 ->
  kmp char_signed junk line p = Ret r ->
  test char_signed junk stack fuel p verbose w
  = sanity_check char_signed (length p) 0
      (line ++ 0 :: 0 :: drop (length line + 2) (stack <$> seqZ 0 4096))
      r p
      (World rest (other w)
         (stdout w ++ test_prints verbose p (strlen line)
                        (if r is Some _ then true else false))).
Proof.
  intros Hs Hline Hlen Ek. unfold test. cbv zeta.
  set (buf := stack <$> seqZ 0 4096).
  assert (strlen buf = 4096) as Hbuf by (by apply stack_buffer_length).
  apply inline_inv in Hline.
  pose proof (readline_stores_line char_signed fuel Stdin buf 4096 w line rest
                Hs Hline ltac:(lia) ltac:(lia) ltac:(done)) as E.
  pose proof (until_nul_app line (0 :: drop (length line + 2) buf)
                (inline_not_nul _ Hline)) as Hstr.
  rewrite (iobind_done _ _ _ _ _ E). cbn [snd].
  assert (c_string (line ++ 0 :: 0 :: drop (length line + 2) buf) = ret line)
    as Hcs by (unfold c_string; by rewrite Hstr).
  rewrite Hcs. unfold test_prints.
  destruct verbose; unfold iobind, ret, printf; simpl; rewrite Ek;
    destruct r as [o|]; simpl; by rewrite <- ?app_assoc.
Qed.

(** The sanity check after a search that found the pattern in the line
    the buffer holds. *)
Lemma sanity_check_found p line tail o w :
  occurs_at p line o ->
  sanity_check char_signed (length p) 0 (line ++ tail) (Some o) p w
  = Done tt w.
Proof.
  intros Ho. apply occurs_at_chars in Ho as (H0 & H1 & Hch).
  apply sanity_check_passes; [|done|unfold strlen; lia].
  intros i Hi. split.
  - unfold strlen in *. rewrite length_app. lia.
  - rewrite line_in_buffer by lia. by apply Hch.
Qed.

(** When the pattern occurs in the line read, both being over the bytes
    the table has rows for, [test] finds it, prints, and its sanity check
    succeeds: the run comes to its end, the standard input being left after
    the line. *)
Theorem test_found fuel p verbose w line rest o :
  p <> [] -> symbols char_signed p = true ->
  stdin w = line ++ 10 :: rest ->
  symbols char_signed line = true ->
  forallb inline line = true ->
  strlen line <= 4094 ->
  occurs_at p line o ->
  test char_signed junk stack fuel p verbose w
  = Done tt (World rest (other w)
               (stdout w ++ test_prints verbose p (strlen line) true)).
Proof.
  intros Hne Hp Hs Hsym Hline Hlen Hocc.
  destruct (kmp_spec char_signed junk p line Hne Hp Hsym)
    as (dfa & r & _ & _ & _ & Ek & Hr).
  rewrite (test_reads_line fuel p verbose w line rest r) by done.
  destruct r as [o'|]; [|by destruct (Hr o)].
  destruct Hr as [Ho' _]. by apply sanity_check_found.
Qed.

(** When the pattern does not occur in the line read, both being over the
    bytes the table has rows for, [test] prints, and its sanity check then
    reads through the null pointer that [kmp] returned. *)
Theorem test_not_found fuel p verbose w line rest :
  p <> [] -> symbols char_signed p = true ->
  stdin w = line ++ 10 :: rest ->
  symbols char_signed line = true ->
  forallb inline line = true ->
  strlen line <= 4094 ->
  (forall o, ~ occurs_at p line o) ->
  test char_signed junk stack fuel p verbose w
  = Stop (Undefined NullPointer)
         (World rest (other w)
            (stdout w ++ test_prints verbose p (strlen line) false)).
Proof.
  intros Hne Hp Hs Hsym Hline Hlen Hno.
  destruct (kmp_spec char_signed junk p line Hne Hp Hsym)
    as (dfa & r & _ & _ & _ & Ek & Hr).
  rewrite (test_reads_line fuel p verbose w line rest r) by done.
  destruct r as [o'|]; [by destruct Hr as [Ho' _]; destruct (Hno o')|].
  by destruct p.
Qed.

End Test.

Lemma test_found_witness :
  cstr "ab" <> [] /\ symbols true (cstr "ab") = true /\
  stdin (World (cstr "xab" ++ 10 :: cstr "y") [] [])
  = cstr "xab" ++ 10 :: cstr "y" /\
  symbols true (cstr "xab") = true /\
  forallb inline (cstr "xab") = true /\
  strlen (cstr "xab") <= 4094 /\
  occurs_at (cstr "ab") (cstr "xab") 1 /\
  test true (fun _ _ => 7) (fun _ => 7) O (cstr "ab") true
    (World (cstr "xab" ++ 10 :: cstr "y") [] [])
  = Done tt (World (cstr "y") []
               ([] ++ test_prints true (cstr "ab") (strlen (cstr "xab")) true)).
Proof.
  assert (occurs_at (cstr "ab") (cstr "xab") 1) as Hocc
    by (by exists (cstr "x"), []).
  split; [discriminate|]. split; [reflexivity|]. split; [reflexivity|].
  split; [reflexivity|]. split; [reflexivity|].
  split; [unfold strlen; simpl; lia|]. split; [exact Hocc|].
  apply (test_found true (fun _ _ => 7) (fun _ => 7) O (cstr "ab") true
           (World (cstr "xab" ++ 10 :: cstr "y") [] [])
           (cstr "xab") (cstr "y") 1);
    [discriminate | reflexivity | reflexivity | reflexivity | reflexivity
     | unfold strlen; simpl; lia | exact Hocc].
Defined.

Lemma test_not_found_witness :
  cstr "ab" <> [] /\ symbols true (cstr "ab") = true /\
  stdin (World (cstr "x" ++ 10 :: cstr "y") [] [])
  = cstr "x" ++ 10 :: cstr "y" /\
  symbols true (cstr "x") = true /\
  forallb inline (cstr "x") = true /\
  strlen (cstr "x") <= 4094 /\
  (forall o, ~ occurs_at (cstr "ab") (cstr "x") o) /\
  test true (fun _ _ => 7) (fun _ => 7) O (cstr "ab") true
    (World (cstr "x" ++ 10 :: cstr "y") [] [])
  = Stop (Undefined NullPointer)
         (World (cstr "y") []
            ([] ++ test_prints true (cstr "ab") (strlen (cstr "x")) false)).
Proof.
  assert (forall o, ~ occurs_at (cstr "ab") (cstr "x") o) as Hno.
  { intros o H. apply occurs_at_chars in H as (H0 & H1 & _).
    unfold strlen in *. simpl in *. lia. }
  split; [discriminate|]. split; [reflexivity|]. split; [reflexivity|].
  split; [reflexivity|]. split; [reflexivity|].
  split; [unfold strlen; simpl; lia|]. split; [exact Hno|].
  apply (test_not_found true (fun _ _ => 7) (fun _ => 7) O (cstr "ab") true
           (World (cstr "x" ++ 10 :: cstr "y") [] [])
           (cstr "x") (cstr "y"));
    [discriminate | reflexivity | reflexivity | reflexivity | reflexivity
     | unfold strlen; simpl; lia | exact Hno].
Defined.




(** With no argument after the program's name, or more than two, [main]
    prints an error and the usage and ends the process with
    [EXIT_FAILURE]; nothing is read from the standard input. *)
Theorem main_wrong_argc char_signed junk stack fuel argv0 args w :
  length args <> 1%nat -> length args <> 2%nat ->
  main char_signed junk stack fuel (argv0 :: args) w
  = Stop (Exited EXIT_FAILURE)
         (World (stdin w) (other w)
            (stdout w
             ++ Printf "Error: invalid number of arguments.\n" []
             :: usage_prints argv0)).
Proof.
  intros H1 H2. unfold main. cbv zeta.
  assert ((Z.of_nat (length (argv0 :: args)) <? 2)
          || (3 <? Z.of_nat (length (argv0 :: args))) = true) as ->.
  { apply orb_true_iff. rewrite !Z.ltb_lt. simpl length. lia. }
  unfold iobind, printf, usage, exit, halt, usage_prints. simpl.
  by rewrite <- !app_assoc.
Qed.

Lemma main_wrong_argc_witness :
  length ([] : list (list Z)) <> 1%nat /\
  length ([] : list (list Z)) <> 2%nat /\
  main true (fun _ _ => 7) (fun _ => 7) O (cstr "kmp" :: [])
    (World (cstr "line") [] [])
  = Stop (Exited EXIT_FAILURE)
         (World (stdin (World (cstr "line") [] []))
            (other (World (cstr "line") [] []))
            (stdout (World (cstr "line") [] [])
             ++ Printf "Error: invalid number of arguments.\n" []
             :: usage_prints (cstr "kmp"))).
Proof.
  split; [discriminate|]. split; [discriminate|].
  apply main_wrong_argc; discriminate.
Defined.

(** With two arguments, the first must be [--verbose]: otherwise [main]
    prints an error and the usage and ends the process with
    [EXIT_FAILURE]; in particular the flag is not accepted after the
    pattern. *)
Theorem main_flag_comes_first char_signed junk stack fuel argv0 a1 a2 w :
  a1 <> cstr "--verbose" ->
  main char_signed junk stack fuel [argv0; a1; a2] w
  = Stop (Exited EXIT_FAILURE)
         (World (stdin w) (other w)
            (stdout w
             ++ Printf "Error: invalid arguments.\n" []
             :: usage_prints argv0)).
Proof.
  intros Ha. unfold main. cbv zeta.
  change (nth 1 [argv0; a1; a2] []) with a1.
  rewrite bool_decide_eq_false_2 by done.
  unfold iobind, printf, usage, exit, halt, usage_prints, ret. simpl.
  by rewrite <- !app_assoc.
Qed.

Lemma main_flag_comes_first_witness :
  cstr "ab" <> cstr "--verbose" /\
  main true (fun _ _ => 7) (fun _ => 7) O
    [cstr "kmp"; cstr "ab"; cstr "--verbose"] (World (cstr "line") [] [])
  = Stop (Exited EXIT_FAILURE)
         (World (stdin (World (cstr "line") [] []))
            (other (World (cstr "line") [] []))
            (stdout (World (cstr "line") [] [])
             ++ Printf "Error: invalid arguments.\n" []
             :: usage_prints (cstr "kmp"))).
Proof.
  split; [discriminate|]. apply main_flag_comes_first. discriminate.
Defined.

(** The arguments [main] takes a pattern and a verbosity from. *)
Lemma main_runs_test char_signed junk stack fuel argv0 p (verbose : bool) w :
  main char_signed junk stack fuel
    (argv0 :: (if verbose then [cstr "--verbose"] else []) ++ [p]) w
  = (test char_signed junk stack fuel p verbose ;;; ret EXIT_SUCCESS) w.
Proof. by destruct verbose. Qed.

(** A run of the program on a line of the standard input in which the
    pattern occurs, both being over the bytes the table has rows for: with
    the pattern as only argument, whatever it is, the
    run prints the time line alone; after [--verbose] it also prints the
    pattern, the length of the line and "found"; it returns
    [EXIT_SUCCESS] and leaves the standard input after the line. *)
Theorem main_found char_signed junk stack fuel argv0 p (verbose : bool) w
    line rest o :
  p <> [] -> symbols char_signed p = true ->
  stdin w = line ++ 10 :: rest ->
  symbols char_signed line = true ->
  forallb inline line = true ->
  strlen line <= 4094 ->
  occurs_at p line o ->
  main char_signed junk stack fuel
    (argv0 :: (if verbose then [cstr "--verbose"] else []) ++ [p]) w
  = Done EXIT_SUCCESS
         (World rest (other w)
            (stdout w ++ test_prints verbose p (strlen line) true)).
Proof.
  intros Hne Hp Hs Hsym Hline Hlen Hocc.
  destruct (kmp_spec char_signed junk p line Hne Hp Hsym)
    as (dfa & r & _ & _ & _ & Ek & Hr).
  rewrite main_runs_test. erewrite iobind_done; [done|].
  rewrite (test_reads_line char_signed junk stack fuel p verbose w line rest r)
    by done.
  destruct r as [o'|]; [|by destruct (Hr o)].
  destruct Hr as [Ho' _]. by apply sanity_check_found.
Qed.

Lemma main_found_witness :
  cstr "--verbose" <> [] /\ symbols true (cstr "--verbose") = true /\
  stdin (World (cstr "a --verbose b" ++ 10 :: cstr "y") [] [])
  = cstr "a --verbose b" ++ 10 :: cstr "y" /\
  symbols true (cstr "a --verbose b") = true /\
  forallb inline (cstr "a --verbose b") = true /\
  strlen (cstr "a --verbose b") <= 4094 /\
  occurs_at (cstr "--verbose") (cstr "a --verbose b") 2 /\
  main true (fun _ _ => 7) (fun _ => 7) O
    (cstr "kmp" :: (if false then [cstr "--verbose"] else [])
       ++ [cstr "--verbose"])
    (World (cstr "a --verbose b" ++ 10 :: cstr "y") [] [])
  = Done EXIT_SUCCESS
         (World (cstr "y")
            (other (World (cstr "a --verbose b" ++ 10 :: cstr "y") [] []))
            (stdout (World (cstr "a --verbose b" ++ 10 :: cstr "y") [] [])
             ++ test_prints false (cstr "--verbose")
                  (strlen (cstr "a --verbose b")) true)).
Proof.
  assert (occurs_at (cstr "--verbose") (cstr "a --verbose b") 2) as Hocc
    by (by exists (cstr "a "), (cstr " b")).
  split; [discriminate|]. split; [reflexivity|]. split; [reflexivity|].
  split; [reflexivity|]. split; [reflexivity|].
  split; [unfold strlen; simpl; lia|]. split; [exact Hocc|].
  apply (main_found true (fun _ _ => 7) (fun _ => 7) O (cstr "kmp")
           (cstr "--verbose") false
           (World (cstr "a --verbose b" ++ 10 :: cstr "y") [] [])
           (cstr "a --verbose b") (cstr "y") 2);
    [discriminate | reflexivity | reflexivity | reflexivity | reflexivity
     | unfold strlen; simpl; lia | exact Hocc].
Defined.
